(** * BlueWallet PayNym directory client and BIP47 wallet surface

    A shallow embedding of [blue_modules/paynym/PaynymDirectory.ts] and of the
    PayNym methods of [class/wallets/hd-segwit-bech32-wallet.ts], with the
    properties their specification states about them.

    Layout: JavaScript values the code manipulates (strings as UTF-16 code
    units, JSON values, numbers), the effects it performs (transport calls,
    timers, the clock, AsyncStorage) as a state-and-exception monad, the
    directory client, the wallet, and then the theorems. *)

From Stdlib Require Import ZArith NArith String Ascii List Bool Lia.
From Stdlib Require Import DecimalString DecimalPos.
From stdpp Require Import base option list gmap strings.

Set Warnings "-register-all".
Local Open Scope N_scope.

(** ** JavaScript strings *)

Module Js.

(** A JavaScript string is a sequence of UTF-16 code units. *)
Abbreviation jsstring := (list N).

(** A literal of the source text, all of whose characters are ASCII. *)
Definition str (s : string) : list N :=
  List.map (fun a => N_of_ascii a) (list_ascii_of_string s).

(** [s.startsWith(p)] *)
Fixpoint startsWith (s p : list N) : bool :=
  match p, s with
  | [], _ => true
  | _ :: _, [] => false
  | c :: p', d :: s' => (c =? d) && startsWith s' p'
  end.

(** [Number.prototype.toString] on an integer value. *)
Definition Number_toString (z : Z) : list N :=
  str (NilZero.string_of_int (Z.to_int z)).

Definition is_high_surrogate (u : N) : bool := (0xD800 <=? u) && (u <=? 0xDBFF).
Definition is_low_surrogate (u : N) : bool := (0xDC00 <=? u) && (u <=? 0xDFFF).

(** UTF-8 encoding of one Unicode scalar value. *)
Definition utf8_scalar (cp : N) : list N :=
  if cp <? 0x80 then [cp]
  else if cp <? 0x800 then
    [N.lor 0xC0 (N.shiftr cp 6); N.lor 0x80 (N.land cp 0x3F)]
  else if cp <? 0x10000 then
    [N.lor 0xE0 (N.shiftr cp 12);
     N.lor 0x80 (N.land (N.shiftr cp 6) 0x3F);
     N.lor 0x80 (N.land cp 0x3F)]
  else
    [N.lor 0xF0 (N.shiftr cp 18);
     N.lor 0x80 (N.land (N.shiftr cp 12) 0x3F);
     N.lor 0x80 (N.land (N.shiftr cp 6) 0x3F);
     N.lor 0x80 (N.land cp 0x3F)].

(** The bytes a [Blob] holds for a string part: the string is converted to
    scalar values (a surrogate pair is one scalar value, an unpaired
    surrogate becomes U+FFFD) and each is encoded in UTF-8. *)
Fixpoint utf8_encode (s : list N) : list N :=
  match s with
  | [] => []
  | u :: rest =>
    if is_high_surrogate u then
      match rest with
      | lo :: rest' =>
        if is_low_surrogate lo then
          utf8_scalar (0x10000 + (u - 0xD800) * 0x400 + (lo - 0xDC00))
            ++ utf8_encode rest'
        else utf8_scalar 0xFFFD ++ utf8_encode rest
      | [] => utf8_scalar 0xFFFD
      end
    else if is_low_surrogate u then utf8_scalar 0xFFFD ++ utf8_encode rest
    else utf8_scalar u ++ utf8_encode rest
  end.

(** [new Blob([s]).size] *)
Definition Blob_size (s : list N) : Z := Z.of_nat (length (utf8_encode s)).

(** *** Numbers

    A Number whose value is an integer, NaN or an infinity: what [parseInt]
    returns and what multiplying such values gives.  [Finite z] stands for
    the double whose value is [z]; the sign of a zero is not kept. *)
Inductive number :=
| Finite (z : Z)
| NaN
| Infinite (negative : bool).

(** The double nearest to an integer, ties to the even significand; beyond
    the largest double it is an infinity. *)
Definition to_double (z : Z) : number :=
  let n := Z.abs z in
  if (n <? 2 ^ 53)%Z then Finite z
  else
    let e := (Z.log2 n - 52)%Z in
    let q := Z.shiftr n e in
    let r := Z.land n (Z.ones e) in
    let half := Z.shiftl 1 (e - 1) in
    let q' := if (half <? r)%Z || ((r =? half)%Z && Z.odd q) then (q + 1)%Z else q in
    let m := Z.shiftl q' e in
    if (2 ^ 1024 <=? m)%Z then Infinite (z <? 0)%Z
    else Finite (if (z <? 0)%Z then (- m)%Z else m).

(** [a * b] on such Numbers, both being doubles. *)
Definition multiply (a b : number) : number :=
  match a, b with
  | NaN, _ | _, NaN => NaN
  | Finite x, Finite y => to_double (x * y)
  | Infinite s, Finite y | Finite y, Infinite s =>
    if (y =? 0)%Z then NaN else Infinite (xorb s (y <? 0)%Z)
  | Infinite s, Infinite t => Infinite (xorb s t)
  end.

(** [parseInt(s)] without a radix.  Leading white space is skipped, a sign
    is read, a [0x] prefix selects base 16, and the longest run of digits is
    converted; without a digit the result is NaN.  The value of the digits
    is taken exactly and then rounded to a double (for more than twenty
    decimal digits the language lets an engine round the later ones down
    first). *)
Definition is_space (u : N) : bool :=
  (u =? 32) || ((9 <=? u) && (u <=? 13)) || (u =? 0xA0) || (u =? 0x1680)
  || ((0x2000 <=? u) && (u <=? 0x200A)) || (u =? 0x2028) || (u =? 0x2029)
  || (u =? 0x202F) || (u =? 0x205F) || (u =? 0x3000) || (u =? 0xFEFF).

Fixpoint skip_spaces (s : list N) : list N :=
  match s with
  | u :: rest => if is_space u then skip_spaces rest else s
  | [] => []
  end.

Definition digit_value (u : N) : option N :=
  if (48 <=? u) && (u <=? 57) then Some (u - 48)
  else if (97 <=? u) && (u <=? 122) then Some (u - 87)
  else if (65 <=? u) && (u <=? 90) then Some (u - 55)
  else None.

Fixpoint read_digits (radix : N) (s : list N) (acc : option N) : option N :=
  match s with
  | u :: rest =>
    match digit_value u with
    | Some d =>
      if d <? radix
      then read_digits radix rest (Some (default 0 acc * radix + d))
      else acc
    | None => acc
    end
  | [] => acc
  end.

(** The signed value of the digits [parseInt] reads; [None] without a
    digit. *)
Definition mathInt (s : list N) : option Z :=
  let s := skip_spaces s in
  let '(negative, s) :=
    match s with
    | 45 :: rest => (true, rest)
    | 43 :: rest => (false, rest)
    | _ => (false, s)
    end in
  let '(radix, s) :=
    match s with
    | 48 :: 120 :: rest => (16, rest)
    | 48 :: 88 :: rest => (16, rest)
    | _ => (10, s)
    end in
  match read_digits radix s None with
  | Some n => Some (if negative then (- Z.of_N n)%Z else Z.of_N n)
  | None => None
  end.

Definition parseInt (s : list N) : number :=
  match mathInt s with
  | Some z => to_double z
  | None => NaN
  end.

(** *** JSON values

    Numbers are the integers; the directory protocol carries no fractions. *)
Inductive json :=
| JNull
| JBool (b : bool)
| JNum (z : Z)
| JStr (s : jsstring)
| JArr (items : list json)
| JObj (fields : list (jsstring * json)).

(** A value read from a property or a variable: [None] is [undefined]. *)
Abbreviation jsvalue := (option json).

(** ToBoolean *)
Definition truthy (v : jsvalue) : bool :=
  match v with
  | None | Some JNull => false
  | Some (JBool b) => b
  | Some (JNum z) => negb (z =? 0)%Z
  | Some (JStr s) => match s with [] => false | _ => true end
  | Some (JArr _) | Some (JObj _) => true
  end.

(** The property [k] of an object with the given fields. *)
Fixpoint assoc (k : jsstring) (fields : list (jsstring * json)) : jsvalue :=
  match fields with
  | [] => None
  | (k', v) :: rest => if bool_decide (k = k') then Some v else assoc k rest
  end.

(** *** JSON.stringify *)

Definition hex_digit (n : N) : N := if n <? 10 then 48 + n else 87 + n.

(** The six-character escape of a code unit, with lower-case digits. *)
Definition unicode_escape (u : N) : jsstring :=
  [92; 117; hex_digit (u / 4096 mod 16); hex_digit (u / 256 mod 16);
   hex_digit (u / 16 mod 16); hex_digit (u mod 16)].

Fixpoint quote_units (s : jsstring) : jsstring :=
  match s with
  | [] => []
  | u :: rest =>
    if u =? 8 then 92 :: 98 :: quote_units rest
    else if u =? 9 then 92 :: 116 :: quote_units rest
    else if u =? 10 then 92 :: 110 :: quote_units rest
    else if u =? 12 then 92 :: 102 :: quote_units rest
    else if u =? 13 then 92 :: 114 :: quote_units rest
    else if u =? 34 then 92 :: 34 :: quote_units rest
    else if u =? 92 then 92 :: 92 :: quote_units rest
    else if u <? 32 then unicode_escape u ++ quote_units rest
    else if is_high_surrogate u then
      match rest with
      | lo :: rest' =>
        if is_low_surrogate lo then u :: lo :: quote_units rest'
        else unicode_escape u ++ quote_units rest
      | [] => unicode_escape u
      end
    else if is_low_surrogate u then unicode_escape u ++ quote_units rest
    else u :: quote_units rest
  end.

(** QuoteJSONString *)
Definition quote (s : jsstring) : jsstring := 34 :: quote_units s ++ [34].

Fixpoint join (sep : jsstring) (parts : list jsstring) : jsstring :=
  match parts with
  | [] => []
  | [p] => p
  | p :: rest => p ++ sep ++ join sep rest
  end.

Fixpoint JSON_stringify (j : json) : jsstring :=
  match j with
  | JNull => str "null"
  | JBool true => str "true"
  | JBool false => str "false"
  | JNum z => Number_toString z
  | JStr s => quote s
  | JArr items => 91 :: join [44] (List.map JSON_stringify items) ++ [93]
  | JObj fields =>
    123 :: join [44]
             (List.map (fun kv => quote (fst kv) ++ 58 :: JSON_stringify (snd kv))
                       fields)
        ++ [125]
  end.

(** *** Conversions used by the callers *)

(** ToString, as a template literal or [+] applies it to a JSON value. *)
Fixpoint to_string (j : json) : jsstring :=
  match j with
  | JNull => str "null"
  | JBool true => str "true"
  | JBool false => str "false"
  | JNum z => Number_toString z
  | JStr s => s
  | JArr items =>
    join [44] (List.map (fun x => match x with
                                  | JNull => []
                                  | _ => to_string x
                                  end) items)
  | JObj _ => str "[object Object]"
  end.

(** [`${v}`] *)
Definition template (v : jsvalue) : jsstring :=
  match v with
  | Some j => to_string j
  | None => str "undefined"
  end.

(** [s.substring(0, n)] *)
Definition substring0 (n : nat) (s : jsstring) : jsstring := firstn n s.

End Js.

(** ** Effects

    The directory client talks to three collaborators: the transport function
    [fetch], the key-value store [AsyncStorage], and the clock [Date.now].
    Timers ([setTimeout]) are recorded in the trace.  Console output is not
    modelled. *)

Module Effects.
Import Js.

(** What a JavaScript [throw] or a rejected promise carries. *)
Inductive exn :=
| ErrorObj (msg : jsstring)   (* [error instanceof Error], with its [message] *)
| Thrown (v : jsvalue).       (* any other value *)

Inductive outcome (A : Type) :=
| Ok (a : A)
| Throw (e : exn).
Arguments Ok {A} a.
Arguments Throw {A} e.

(** The argument of [fetch(url, {method, headers, body})]. *)
Record Request := {
  url : jsstring;
  method : jsstring;
  headers : gmap jsstring jsstring;
  body : jsstring
}.

(** What [fetch] resolves to: [{ok, status, statusText, json(), headers.get}]. *)
Record Response := {
  ok : bool;
  status : Z;
  statusText : jsstring;
  json_result : outcome json;               (* [await response.json()] *)
  headers_get : jsstring -> option jsstring (* [null] is [None] *)
}.

(** The Fetch standard sets [ok] for the statuses 200 to 299. *)
Definition ok_status (r : Response) : Prop :=
  ok r = ((200 <=? status r)%Z && (status r <=? 299)%Z).

(** [PaynymInfo], the summary kept in the cache. *)
Record PaynymInfo := {
  code : jsstring;
  nymID : jsvalue;
  nymName : jsvalue;
  avatar : jsvalue;
  followers : jsvalue;
  following : jsvalue;
  createdAt : jsvalue;
  cached_at : option Z
}.

(** A text held by AsyncStorage.  The directory only writes
    [JSON.stringify(info)] and only reads through [JSON.parse], so a text is
    represented by what [JSON.parse] makes of it: a [PaynymInfo] object, or a
    text it rejects with a SyntaxError.  Texts that parse to a value of
    another type are not represented, and the store itself never fails. *)
Inductive text :=
| Stringified (info : PaynymInfo)
| Unparsable (raw : jsstring).

Inductive event :=
| Fetched (r : Request)       (* one call of the transport function *)
| Slept (ms : number).        (* an awaited [setTimeout] *)

Record World := {
  storage : gmap jsstring text;
  trace : list event;           (* oldest first *)
  ticks : nat                   (* readings of the clock so far *)
}.

(** The behaviour of the collaborators: the n-th transport call settles as
    [transport n request], the n-th reading of the clock is [Date_now n], and
    the engine words the errors it raises itself with [engine_message]. *)
Record Env := {
  transport : nat -> Request -> outcome Response;
  Date_now : nat -> Z;
  engine_message : jsstring -> jsstring
}.

Definition M (A : Type) : Type := Env -> World -> outcome A * World.

Definition ret {A} (a : A) : M A := fun _ w => (Ok a, w).
Definition throw {A} (e : exn) : M A := fun _ w => (Throw e, w).
Definition bind {A B} (m : M A) (k : A -> M B) : M B :=
  fun env w =>
    match m env w with
    | (Ok a, w') => k a env w'
    | (Throw e, w') => (Throw e, w')
    end.

(** [try { m } catch (error) { handler error }] *)
Definition try_catch {A} (m : M A) (handler : exn -> M A) : M A :=
  fun env w =>
    match m env w with
    | (Ok a, w') => (Ok a, w')
    | (Throw e, w') => handler e env w'
    end.

#[global] Instance M_ret : MRet M := @ret.
#[global] Instance M_bind : MBind M := fun A B k m => bind m k.

Definition is_fetch (e : event) : bool :=
  match e with Fetched _ => true | Slept _ => false end.

(** The number of transport calls in a trace. *)
Definition fetch_count (t : list event) : nat := length (List.filter is_fetch t).

Definition record (e : event) (w : World) : World :=
  {| storage := storage w; trace := trace w ++ [e]; ticks := ticks w |}.

(** [await fetch(url, {method, headers, body})] *)
Definition fetch (r : Request) : M Response :=
  fun env w => (transport env (fetch_count (trace w)) r, record (Fetched r) w).

(** [await new Promise(resolve => setTimeout(resolve, ms))] *)
Definition sleep (ms : number) : M unit :=
  fun _ w => (Ok tt, record (Slept ms) w).

(** [Date.now()] *)
Definition now : M Z :=
  fun env w =>
    (Ok (Date_now env (ticks w)),
     {| storage := storage w; trace := trace w; ticks := S (ticks w) |}).

(** A TypeError or SyntaxError raised by the engine. *)
Definition engine_error {A} (what : jsstring) : M A :=
  fun env w => (Throw (ErrorObj (engine_message env what)), w).

(** The TypeErrors of a property access: reading property [k] of [null],
    reading it of [undefined], and calling a property [k] that is not a
    function.  The engine words each differently, so each is a different
    question to [engine_message]. *)
Inductive fault :=
| ReadOfNull (k : jsstring)
| ReadOfUndefined (k : jsstring)
| NotAFunction (k : jsstring).

Definition fault_key (f : fault) : jsstring :=
  match f with
  | ReadOfNull k => k
  | ReadOfUndefined k => str "undefined." ++ k
  | NotAFunction k => k ++ str "()"
  end.

(** [v.k(...)] on a value that has no method [k]. *)
Definition missing_method (v : jsvalue) (k : jsstring) : fault :=
  match v with
  | None => ReadOfUndefined k
  | Some JNull => ReadOfNull k
  | Some _ => NotAFunction k
  end.

Definition type_error {A} (f : fault) : M A := engine_error (fault_key f).

Definition set_storage (s : gmap jsstring text) (w : World) : World :=
  {| storage := s; trace := trace w; ticks := ticks w |}.

(** AsyncStorage *)
Definition getItem (key : jsstring) : M (option text) :=
  fun _ w => (Ok (storage w !! key), w).
Definition setItem (key : jsstring) (v : text) : M unit :=
  fun _ w => (Ok tt, set_storage (<[key := v]> (storage w)) w).
Definition removeItem (key : jsstring) : M unit :=
  fun _ w => (Ok tt, set_storage (delete key (storage w)) w).
Definition getAllKeys : M (list jsstring) :=
  fun _ w => (Ok (map_to_list (storage w)).*1, w).

(** [for (const x of xs) { await body x }] *)
Fixpoint for_of {A} (xs : list A) (body : A -> M unit) : M unit :=
  match xs with
  | [] => ret tt
  | x :: rest => body x ;; for_of rest body
  end.

(** [JSON.parse] and [JSON.stringify] on stored texts. *)
Definition JSON_parse (t : text) : M PaynymInfo :=
  match t with
  | Stringified info => ret info
  | Unparsable raw => engine_error raw
  end.

Definition JSON_stringify_info (info : PaynymInfo) : text := Stringified info.

(** A string is falsy when it is empty. *)
Definition text_truthy (t : text) : bool :=
  match t with
  | Unparsable [] => false
  | _ => true
  end.

(** [xs.map(f)] where [f] may throw. *)
Fixpoint map_each {A B} (f : A -> M B) (xs : list A) : M (list B) :=
  match xs with
  | [] => ret []
  | x :: rest =>
    y ← f x;
    ys ← map_each f rest;
    ret (y :: ys)
  end.

End Effects.

(** ** The directory client: [blue_modules/paynym/PaynymDirectory.ts] *)

Module PaynymDirectory.
Import Js Effects.
Local Open Scope Z_scope.

Definition PAYNYM_API_BASE : jsstring := str "https://paynym.rs/api/v1".
Definition CACHE_DURATION : Z := 24 * 60 * 60 * 1000.
Definition STORAGE_KEY_PREFIX : jsstring := str "paynym_dir_".

(** [PaynymResponse<T>]: [value] is the JSON the directory sent ([JNull] is
    [null]). *)
Record PaynymResponse := {
  value : json;
  statusCode : Z;
  message : json
}.

(** [o.k] on a JSON value that is not [undefined]. *)
Definition prop (o : json) (k : jsstring) : M jsvalue :=
  match o with
  | JNull => engine_error k
  | JObj fields => ret (assoc k fields)
  | _ => ret None
  end.

(** [v.length] *)
Definition length_of (v : jsvalue) : M jsvalue :=
  match v with
  | None => type_error (ReadOfUndefined (str "length"))
  | Some JNull => type_error (ReadOfNull (str "length"))
  | Some (JArr items) => ret (Some (JNum (Z.of_nat (length items))))
  | Some (JStr s) => ret (Some (JNum (Z.of_nat (length s))))
  | Some (JObj fields) => ret (assoc (str "length") fields)
  | Some (JBool _) | Some (JNum _) => ret None
  end.

(** [a || b] where [b] is not [undefined]. *)
Definition or_default (a : jsvalue) (b : json) : json :=
  match a with
  | Some x => if truthy a then x else b
  | None => b
  end.

(** [`HTTP ${response.status}: ${response.statusText}`] *)
Definition http_error (r : Response) : exn :=
  ErrorObj (str "HTTP " ++ Number_toString (status r) ++ str ": " ++ statusText r).

(** [retryAfter ? parseInt(retryAfter) * 1000 : 5000] *)
Definition waitTime (retryAfter : option jsstring) : number :=
  match retryAfter with
  | Some ((_ :: _) as s) => multiply (parseInt s) (Finite 1000)
  | Some [] | None => Finite 5000
  end.

Definition request_headers (contentLength : Z)
    (additionalHeaders : gmap jsstring jsstring) : gmap jsstring jsstring :=
  additionalHeaders ∪
  <[str "Content-Type" := str "application/json; charset=UTF-8"]>
    (<[str "Content-Length" := Number_toString contentLength]> ∅).

Definition make_request (endpoint : jsstring) (body : json)
    (additionalHeaders : gmap jsstring jsstring) : Request :=
  let url := PAYNYM_API_BASE ++
             (if startsWith endpoint (str "/") then endpoint
              else str "/" ++ endpoint) in
  let bodyString := JSON_stringify body in
  let contentLength := Blob_size bodyString in
  {| Effects.url := url;
     method := str "POST";
     headers := request_headers contentLength additionalHeaders;
     Effects.body := bodyString |}.

Definition _post (endpoint : jsstring) (body : json)
    (additionalHeaders : gmap jsstring jsstring) : M (json * Z) :=
  let request := make_request endpoint body additionalHeaders in
  try_catch
    (response ← fetch request;
     if status response =? 429 then
       let retryAfter := headers_get response (str "Retry-After") in
       sleep (waitTime retryAfter);;
       retryResponse ← fetch request;
       if negb (ok retryResponse) then throw (http_error retryResponse)
       else
         data ← (fun _ w => (json_result retryResponse, w));
         mret (data, status retryResponse)
     else if negb (ok response) then throw (http_error response)
     else
       data ← (fun _ w => (json_result response, w));
       mret (data, status response))
    (fun error => throw error).

(** The object every operation returns from its [catch] block. *)
Definition failed (error : exn) : PaynymResponse :=
  {| value := JNull;
     statusCode := -1;
     message := JStr match error with
                     | ErrorObj msg => msg
                     | Thrown _ => str "Unknown error"
                     end |}.

Definition fallback_message (result : json) : M json :=
  m ← prop result (str "message");
  mret (or_default m (JStr (str "Unknown error"))).

Definition respond (v : json) (statusCode : Z) (msg : jsstring) : M PaynymResponse :=
  mret {| value := v; statusCode := statusCode; message := JStr msg |}.

Definition create (code : jsstring) : M PaynymResponse :=
  try_catch
    ('(result, statusCode) ← _post (str "/create") (JObj [(str "code", JStr code)]) ∅;
     match statusCode with
     | 201 => respond result statusCode (str "PayNym created successfully")
     | 200 => respond result statusCode (str "PayNym already exists")
     | 400 => respond JNull statusCode (str "Bad request: Invalid payment code format")
     | _ =>
       msg ← fallback_message result;
       mret {| value := JNull; statusCode := statusCode; message := msg |}
     end)
    (fun error => mret (failed error)).

Definition token (code : jsstring) : M PaynymResponse :=
  try_catch
    ('(result, statusCode) ← _post (str "/token") (JObj [(str "code", JStr code)]) ∅;
     match statusCode with
     | 200 => respond result statusCode (str "Token was successfully updated")
     | 404 => respond JNull statusCode (str "Payment code was not found in database")
     | 400 => respond JNull statusCode (str "Bad request: Invalid payment code format")
     | _ =>
       msg ← fallback_message result;
       mret {| value := JNull; statusCode := statusCode; message := msg |}
     end)
    (fun error => mret (failed error)).

Definition nym (nym : jsstring) (compact : bool) : M PaynymResponse :=
  try_catch
    (let requestBody :=
       JObj ((str "nym", JStr nym) ::
             (if compact then [(str "compact", JBool true)] else [])) in
     '(result, statusCode) ← _post (str "/nym") requestBody ∅;
     match statusCode with
     | 200 => respond result statusCode (str "Nym found and returned")
     | 404 => respond JNull statusCode (str "Nym not found")
     | 400 => respond JNull statusCode (str "Bad request: Invalid nym identifier")
     | _ =>
       msg ← fallback_message result;
       mret {| value := JNull; statusCode := statusCode; message := msg |}
     end)
    (fun error => mret (failed error)).

Definition auth (token : jsstring) : gmap jsstring jsstring :=
  {[ str "auth-token" := token ]}.

Definition claim (token signature : jsstring) : M PaynymResponse :=
  try_catch
    ('(result, statusCode) ←
       _post (str "/claim") (JObj [(str "signature", JStr signature)]) (auth token);
     match statusCode with
     | 200 => respond result statusCode (str "Payment code successfully claimed")
     | 400 => respond JNull statusCode
                (str "Bad request: Missing signature or already claimed")
     | 401 => respond JNull statusCode
                (str "Unauthorized: Invalid token, signature, or unclaimed payment code")
     | _ =>
       msg ← fallback_message result;
       mret {| value := JNull; statusCode := statusCode; message := msg |}
     end)
    (fun error => mret (failed error)).

Definition follow (token signature target : jsstring) : M PaynymResponse :=
  try_catch
    ('(result, statusCode) ←
       _post (str "/follow")
         (JObj [(str "target", JStr target); (str "signature", JStr signature)])
         (auth token);
     match statusCode with
     | 200 => respond result statusCode (str "Added to followers")
     | 404 => respond JNull statusCode (str "Target nym not found")
     | 400 => respond JNull statusCode
                (str "Bad request: Missing fields or cannot follow yourself")
     | 401 => respond JNull statusCode
                (str "Unauthorized: Invalid token, signature, or unclaimed payment code")
     | _ =>
       msg ← fallback_message result;
       mret {| value := JNull; statusCode := statusCode; message := msg |}
     end)
    (fun error => mret (failed error)).

Definition unfollow (token signature target : jsstring) : M PaynymResponse :=
  try_catch
    ('(result, statusCode) ←
       _post (str "/unfollow")
         (JObj [(str "target", JStr target); (str "signature", JStr signature)])
         (auth token);
     match statusCode with
     | 200 => respond result statusCode (str "Unfollowed successfully")
     | 404 => respond JNull statusCode (str "Target nym not found")
     | 400 => respond JNull statusCode
                (str "Bad request: Not currently following this nym")
     | 401 => respond JNull statusCode
                (str "Unauthorized: Invalid token, signature, or unclaimed payment code")
     | _ =>
       msg ← fallback_message result;
       mret {| value := JNull; statusCode := statusCode; message := msg |}
     end)
    (fun error => mret (failed error)).

Definition add (token signature nym code : jsstring) (segwit : bool) : M PaynymResponse :=
  try_catch
    ('(result, statusCode) ←
       _post (str "/nym/add")
         (JObj [(str "nym", JStr nym); (str "code", JStr code);
                (str "signature", JStr signature); (str "segwit", JBool segwit)])
         (auth token);
     match statusCode with
     | 200 => respond result statusCode (str "Code added successfully")
     | 400 => respond JNull statusCode (str "Bad request: Invalid code or duplicate")
     | 401 => respond JNull statusCode
                (str "Unauthorized: Invalid token, signature, or unclaimed primary payment code")
     | 404 => respond JNull statusCode (str "Nym not found or primary code not claimed")
     | _ =>
       msg ← fallback_message result;
       mret {| value := JNull; statusCode := statusCode; message := msg |}
     end)
    (fun error => mret (failed error)).

(** *** The cache *)

Definition cache_key (paymentCode : jsstring) : jsstring :=
  STORAGE_KEY_PREFIX ++ paymentCode.

Definition getPaynymInfo (paymentCode : jsstring) : M (option PaynymInfo) :=
  try_catch
    (response ← nym paymentCode true;
     if truthy (Some (value response)) && (statusCode response =? 200) then
       let account := value response in
       nymID ← prop account (str "nymID");
       nymName ← prop account (str "nymName");
       followers ← (prop account (str "followers") ≫= length_of);
       following ← (prop account (str "following") ≫= length_of);
       cached_at ← now;
       mret (Some {| code := paymentCode;
                     Effects.nymID := nymID;
                     Effects.nymName := nymName;
                     avatar := None;
                     Effects.followers := followers;
                     Effects.following := following;
                     createdAt := None;
                     Effects.cached_at := Some cached_at |})
     else mret None)
    (fun error => mret None).

Definition getCachedPaynymInfo (paymentCode : jsstring) : M (option PaynymInfo) :=
  try_catch
    (let key := cache_key paymentCode in
     cached ← getItem key;
     match cached with
     | Some t =>
       if text_truthy t then info ← JSON_parse t; mret (Some info)
       else mret None
     | None => mret None
     end)
    (fun error => mret None).

Definition cachePaynymInfo (paymentCode : jsstring) (paynymInfo : PaynymInfo) : M unit :=
  try_catch
    (let key := cache_key paymentCode in
     setItem key (JSON_stringify_info paynymInfo))
    (fun error => mret tt).

(** [Date.now() - cached.cached_at! < CACHE_DURATION]; a comparison with NaN
    is false. *)
Definition young (time : Z) (cached : PaynymInfo) : bool :=
  match cached_at cached with
  | Some at_ => time - at_ <? CACHE_DURATION
  | None => false
  end.

Definition getPaynymInfoCached (paymentCode : jsstring) (forceRefresh : bool)
    : M (option PaynymInfo) :=
  hit ← (if negb forceRefresh then
           cached ← getCachedPaynymInfo paymentCode;
           match cached with
           | Some c =>
             time ← now;
             mret (if young time c then Some c else None)
           | None => mret None
           end
         else mret None);
  match hit with
  | Some cached => mret (Some cached)
  | None =>
    paynymInfo ← getPaynymInfo paymentCode;
    match paynymInfo with
    | Some info => cachePaynymInfo paymentCode info
    | None => mret tt
    end;;
    mret paynymInfo
  end.

Definition clearCache : M unit :=
  try_catch
    (keys ← getAllKeys;
     let paynymKeys :=
       List.filter (fun key => startsWith key STORAGE_KEY_PREFIX) keys in
     for_of paynymKeys removeItem)
    (fun error => mret tt).

(** *** Backward compatibility methods *)

(** [array.map(f)] on a value read from JSON: only an array has [map]. *)
Definition map_of {B} (v : jsvalue) (f : json -> M B) : M (list B) :=
  match v with
  | Some (JArr items) => map_each f items
  | _ => type_error (missing_method v (str "map"))
  end.

(** [{ code: '', nymID: follower.nymId }] *)
Definition nym_reference (follower : json) : M PaynymInfo :=
  nymId ← prop follower (str "nymId");
  mret {| code := [];
          Effects.nymID := nymId;
          Effects.nymName := None;
          avatar := None;
          Effects.followers := None;
          Effects.following := None;
          createdAt := None;
          Effects.cached_at := None |}.

Definition getFollowing (paymentCode : jsstring) : M (list PaynymInfo) :=
  try_catch
    (response ← nym paymentCode false;
     if truthy (Some (value response)) && (statusCode response =? 200) then
       let account := value response in
       following ← prop account (str "following");
       map_of following nym_reference
     else mret [])
    (fun error => mret []).

Definition getFollowers (paymentCode : jsstring) : M (list PaynymInfo) :=
  try_catch
    (response ← nym paymentCode false;
     if truthy (Some (value response)) && (statusCode response =? 200) then
       let account := value response in
       followers ← prop account (str "followers");
       map_of followers nym_reference
     else mret [])
    (fun error => mret []).

(** [value?.token]: [undefined] when [value] is [null]. *)
Definition token_of (v : json) : jsvalue :=
  match v with
  | JObj fields => assoc (str "token") fields
  | _ => None
  end.

(** [claim(token, signature)] as [claimPaynym] calls it, with whatever the
    token response held: [claim] begins with [token.substring(0, 20)], which
    only a string has. *)
Definition claim_with (token : jsvalue) (signature : jsstring) : M PaynymResponse :=
  match token with
  | Some (JStr t) => claim t signature
  | _ => type_error (missing_method token (str "substring"))
  end.

Definition claimPaynym (paymentCode signature : jsstring) : M json :=
  try_catch
    (tokenResponse ← token paymentCode;
     if negb (truthy (Some (value tokenResponse))) then
       throw (ErrorObj (str "Failed to get token: "
                          ++ to_string (message tokenResponse)))
     else
       claimResponse ← claim_with (token_of (value tokenResponse)) signature;
       if negb (truthy (Some (value claimResponse))) then
         throw (ErrorObj (str "Failed to claim: "
                            ++ to_string (message claimResponse)))
       else mret (value claimResponse))
    (fun error => throw error).

(** [response.value?.token || null] *)
Definition getToken (paymentCode : jsstring) : M json :=
  try_catch
    (response ← token paymentCode;
     mret (or_default (token_of (value response)) JNull))
    (fun error => mret JNull).

End PaynymDirectory.

(** ** Display helpers: [blue_modules/paynym/PaynymDisplayUtils.ts] *)

Module PaynymDisplayUtils.
Import Js Effects.

(** The character class of [pm8tRegex]. *)
Definition base58 : jsstring :=
  str "123456789ABCDEFGHJKLMNPQRSTUVWXYZabcdefghijkmnopqrstuvwxyz".

Definition is_base58 (u : N) : bool := existsb (N.eqb u) base58.

(** [/^PM8T[...]+$/.test(paymentCode)] *)
Definition pm8tRegex_test (paymentCode : jsstring) : bool :=
  match paymentCode with
  | 80 :: 77 :: 56 :: 84 :: c :: rest => forallb is_base58 (c :: rest)
  | _ => false
  end.

Definition isValidPaymentCode (paymentCode : jsstring) : bool :=
  if negb (pm8tRegex_test paymentCode) then false
  else (50 <=? length paymentCode)%nat.

Definition formatPaymentCode (paymentCode : jsstring)
    (paynymInfo : option PaynymInfo) : jsstring :=
  if truthy (paynymInfo ≫= nymName) then
    43 :: template (paynymInfo ≫= nymName)
  else if startsWith paymentCode (str "PM8T") && (20 <? length paymentCode)%nat then
    let truncated := substring0 20 paymentCode in
    43 :: truncated ++ str "..."
  else paymentCode.

(** [a || b] on values that may be [undefined]. *)
Definition or_value (a b : jsvalue) : jsvalue := if truthy a then a else b.

Definition getDisplayName (paynymInfo : option PaynymInfo)
    (paymentCode : option jsstring) : jsvalue :=
  match paynymInfo with
  | None => or_value (JStr <$> paymentCode) (Some (JStr (str "Unknown")))
  | Some info =>
    or_value (or_value (nymName info) (JStr <$> paymentCode))
             (Some (JStr (str "Unknown")))
  end.

(** [x === n] for a number literal [n]. *)
Definition is_number (x : jsvalue) (n : Z) : bool :=
  match x with
  | Some (JNum z) => (z =? n)%Z
  | _ => false
  end.

Definition formatFollowersCount (followers : jsvalue) : jsstring :=
  if negb (truthy followers) || is_number followers 0 then str "No followers"
  else if is_number followers 1 then str "1 follower"
  else template followers ++ str " followers".

Definition formatFollowingCount (following : jsvalue) : jsstring :=
  if negb (truthy following) || is_number following 0 then str "Not following anyone"
  else if is_number following 1 then str "Following 1"
  else str "Following " ++ template following.

Definition isSamePaynym (a b : option PaynymInfo) : bool :=
  match a, b with
  | Some a, Some b => bool_decide (code a = code b)
  | _, _ => false
  end.

Definition getShortPaymentCode (paymentCode : jsstring) : jsstring :=
  if startsWith paymentCode (str "PM8T") && (15 <? length paymentCode)%nat then
    substring0 15 paymentCode ++ str "..."
  else paymentCode.

Definition getPaynymSummary (paynymInfo : option PaynymInfo) : jsstring :=
  match paynymInfo with
  | None => str "Unclaimed Paynym"
  | Some info =>
    let name := getDisplayName (Some info) None in
    let followers := formatFollowersCount (Effects.followers info) in
    let following := formatFollowingCount (Effects.following info) in
    template name ++ [32; 0x2022; 32] ++ followers ++ [32; 0x2022; 32] ++ following
  end.

Definition getConnectionStatus (isConnected : bool) : jsstring :=
  if isConnected then str "Connected" else str "Not connected".

Record SearchSuggestion := {
  suggested : jsstring;     (* [paymentCode] *)
  displayText : jsstring;
  shortCode : jsstring
}.

Definition createSearchSuggestion (paymentCode : jsstring) : SearchSuggestion :=
  {| suggested := paymentCode;
     displayText := formatPaymentCode paymentCode None;
     shortCode := getShortPaymentCode paymentCode |}.

End PaynymDisplayUtils.

(** ** The wallet: [class/wallets/hd-segwit-bech32-wallet.ts] *)

Module HDSegwitBech32Wallet.
Import Js Effects.
Local Open Scope N_scope.

(** A [Buffer]: a sequence of bytes. *)
Abbreviation bytes := (list N).

(** A BIP32 node as far as the wallet looks at it: [privateKey] is
    [undefined] on a neutered node. *)
Record Node := { privateKey : option bytes }.

(** What [HDSegwitBech32Wallet] inherits from [AbstractHDElectrumWallet]
    (class/wallets/abstract-hd-electrum-wallet.ts, not among the sources) and
    what it calls in the libraries [ecpair] and [bitcoinjs-message]; each is
    taken as it is declared, and each call that can throw returns an
    [outcome]. *)
Class Collaborators (Wallet : Type) := {
  isBIP47Enabled : Wallet -> bool;
  getBIP47PaymentCode : Wallet -> outcome jsstring;
  (* [this.getBIP47FromSeed().getNotificationNode()] *)
  getNotificationNode : Wallet -> outcome (option Node);
  (* [ECPair.fromPrivateKey(key)], which validates the key *)
  ECPair_fromPrivateKey : bytes -> outcome unit;
  (* [bitcoinMessage.sign(message, privateKey, compressed)] *)
  bitcoinMessage_sign : jsstring -> bytes -> bool -> outcome bytes
}.

(** [buffer.toString('base64')] *)
Definition base64_char (n : N) : N :=
  if n <? 26 then 65 + n
  else if n <? 52 then 97 + (n - 26)
  else if n <? 62 then 48 + (n - 52)
  else if n =? 62 then 43
  else 47.

Fixpoint base64_encode (b : bytes) : jsstring :=
  match b with
  | [] => []
  | [x] => [base64_char (x / 4); base64_char (x mod 4 * 16); 61; 61]
  | [x; y] =>
    [base64_char (x / 4); base64_char (x mod 4 * 16 + y / 16);
     base64_char (y mod 16 * 4); 61]
  | x :: y :: z :: rest =>
    base64_char (x / 4) :: base64_char (x mod 4 * 16 + y / 16)
      :: base64_char (y mod 16 * 4 + z / 64) :: base64_char (z mod 64)
      :: base64_encode rest
  end.

Definition and_then {A B} (o : outcome A) (k : A -> outcome B) : outcome B :=
  match o with
  | Ok a => k a
  | Throw e => Throw e
  end.

Section Wallet.
Context {Wallet : Type} `{Collaborators Wallet}.

Definition allowBIP47 (this : Wallet) : bool := true.

Definition generatePaynymClaimSignature (this : Wallet) (token : jsstring)
    : outcome jsstring :=
  if negb (allowBIP47 this) || negb (isBIP47Enabled this) then
    Throw (ErrorObj (str "BIP47 is not enabled for this wallet"))
  else
    and_then (getBIP47PaymentCode this) (fun paymentCode =>
    match paymentCode with
    | [] => Throw (ErrorObj (str "No payment code available"))
    | _ :: _ =>
      and_then (getNotificationNode this) (fun notificationNode =>
      match notificationNode with
      | Some {| privateKey := Some privateKey |} =>
        and_then (ECPair_fromPrivateKey privateKey) (fun _ =>
        and_then (bitcoinMessage_sign token privateKey true) (fun signature =>
        let signatureBase64 := base64_encode signature in
        Ok signatureBase64))
      | _ => Throw (ErrorObj (str "Failed to derive notification private key"))
      end)
    end).
End Wallet.

(** *** The methods that consult the directory *)

(** The two contact lists, inherited from [AbstractHDElectrumWallet] like
    the collaborators above. *)
Class ContactLists (Wallet : Type) := {
  getBIP47SenderPaymentCodes : Wallet -> list jsstring;
  getBIP47ReceiverPaymentCodes : Wallet -> list jsstring
}.

(** A synchronous call that may throw, inside an [async] method. *)
Definition lift {A} (o : outcome A) : M A := fun _ w => (o, w).

(** One element of the result of [getConnectedPaynyms]. *)
Record ConnectedPaynym := {
  paymentCode : jsstring;
  paynymInfo : option PaynymInfo;
  display : jsstring
}.

(** [codes.some(c => c.claimed)] on a value read from JSON: only an array
    has [some], and the callback stops at the first claimed code. *)
Fixpoint some_claimed (codes : list json) : M bool :=
  match codes with
  | [] => mret false
  | c :: rest =>
    claimed ← PaynymDirectory.prop c (str "claimed");
    if truthy claimed then mret true else some_claimed rest
  end.

Definition some_of (codes : jsvalue) : M bool :=
  match codes with
  | Some (JArr items) => some_claimed items
  | _ => type_error (missing_method codes (str "some"))
  end.

Section Paynym.
Context {Wallet : Type} `{Collaborators Wallet} `{ContactLists Wallet}.

Definition disabled (this : Wallet) : bool :=
  negb (allowBIP47 this) || negb (isBIP47Enabled this).

Definition getMyPaynymInfo (this : Wallet) (forceRefresh : bool)
    : M (option PaynymInfo) :=
  if disabled this then mret None
  else
    paymentCode ← lift (getBIP47PaymentCode this);
    match paymentCode with
    | [] => mret None
    | _ :: _ => PaynymDirectory.getPaynymInfoCached paymentCode forceRefresh
    end.

Definition getMyPaynymDisplay (this : Wallet) : outcome jsstring :=
  if disabled this then
    and_then (getBIP47PaymentCode this) (fun paymentCode =>
    Ok match paymentCode with
       | [] => str "Paynym disabled"
       | _ :: _ => paymentCode
       end)
  else
    and_then (getBIP47PaymentCode this) (fun paymentCode =>
    Ok match paymentCode with
       | [] => str "No payment code"
       | _ :: _ => PaynymDisplayUtils.formatPaymentCode paymentCode None
       end).

Definition isMyPaynymClaimed (this : Wallet) : M bool :=
  if disabled this then mret false
  else
    paymentCode ← lift (getBIP47PaymentCode this);
    match paymentCode with
    | [] => mret false
    | _ :: _ =>
      try_catch
        (response ← PaynymDirectory.nym paymentCode false;
         if negb (truthy (Some (PaynymDirectory.value response)))
            || negb (PaynymDirectory.statusCode response =? 200)%Z
         then mret false
         else
           codes ← PaynymDirectory.prop (PaynymDirectory.value response)
                     (str "codes");
           some_of codes)
        (fun _ => mret false)
    end.

Definition getPaynymInfo (this : Wallet) (paymentCode : jsstring)
    (forceRefresh : bool) : M (option PaynymInfo) :=
  if disabled this then mret None
  else if negb (PaynymDisplayUtils.isValidPaymentCode paymentCode) then
    throw (ErrorObj (str "Invalid payment code format"))
  else PaynymDirectory.getPaynymInfoCached paymentCode forceRefresh.

Definition getPaynymFollowing (this : Wallet) (paymentCode : jsstring)
    : M (list PaynymInfo) :=
  if disabled this then mret []
  else PaynymDirectory.getFollowing paymentCode.

Definition getPaynymFollowers (this : Wallet) (paymentCode : jsstring)
    : M (list PaynymInfo) :=
  if disabled this then mret []
  else PaynymDirectory.getFollowers paymentCode.

Definition getConnectedPaynyms (this : Wallet) (forceRefresh : bool)
    : M (list ConnectedPaynym) :=
  if disabled this then mret []
  else
    let senderPaymentCodes := getBIP47SenderPaymentCodes this in
    let receiverPaymentCodes := getBIP47ReceiverPaymentCodes this in
    let allPaymentCodes := senderPaymentCodes ++ receiverPaymentCodes in
    map_each
      (fun paymentCode =>
         try_catch
           (paynymInfo ← match paymentCode with
                         | [] => mret None
                         | _ :: _ =>
                           PaynymDirectory.getPaynymInfoCached paymentCode
                             forceRefresh
                         end;
            let display :=
              match paynymInfo with
              | Some info =>
                PaynymDisplayUtils.formatPaymentCode paymentCode (Some info)
              | None => PaynymDisplayUtils.formatPaymentCode paymentCode None
              end in
            mret {| paymentCode := paymentCode;
                    paynymInfo := paynymInfo;
                    display := display |})
           (fun _ =>
              mret {| paymentCode := paymentCode;
                      paynymInfo := None;
                      display :=
                        PaynymDisplayUtils.formatPaymentCode paymentCode None |}))
      allPaymentCodes.
End Paynym.

End HDSegwitBech32Wallet.

(** ** The contact list screen: [screen/wallets/PaymentCodesList.tsx] *)

Module PaymentCodesList.
Import Js.
Local Open Scope Z_scope.

(** [self.indexOf(value)] on an array of strings: the first index that holds
    the value, [-1] when none does. *)
Fixpoint indexOf_from (i : Z) (self : list jsstring) (value : jsstring) : Z :=
  match self with
  | [] => -1
  | x :: rest =>
    if bool_decide (x = value) then i else indexOf_from (i + 1) rest value
  end.

Definition indexOf (self : list jsstring) (value : jsstring) : Z :=
  indexOf_from 0 self value.

Definition onlyUnique (value : jsstring) (index : Z) (self : list jsstring) : bool :=
  indexOf self value =? index.

(** [self.filter(f)]: the callback receives the element, its index and the
    array. *)
Fixpoint filter_from (f : jsstring -> Z -> list jsstring -> bool) (i : Z)
    (xs self : list jsstring) : list jsstring :=
  match xs with
  | [] => []
  | x :: rest =>
    if f x i self then x :: filter_from f (i + 1) rest self
    else filter_from f (i + 1) rest self
  end.

Definition filter (f : jsstring -> Z -> list jsstring -> bool)
    (self : list jsstring) : list jsstring :=
  filter_from f 0 self self.

(** The rows of the list: [senders.concat(receivers).filter(onlyUnique)]. *)
Definition data (senders receivers : list jsstring) : list jsstring :=
  filter onlyUnique (senders ++ receivers).

(** [s.substr(start, length)] for a start within the string. *)
Definition substr (start length : nat) (s : jsstring) : jsstring :=
  firstn length (skipn start s).

Definition shortenContactName (name : jsstring) : jsstring :=
  if (List.length name <? 20)%nat then name
  else substr 0 10 name ++ str "..." ++ substr (List.length name - 10) 10 name.

End PaymentCodesList.

(** ** The contact registry *)

Module ContactRegistry.
Import Js.

(** The two lists of payment codes a wallet keeps: the codes it can pay
    ([_send_payment_codes]) and the codes that can pay it
    ([_receive_payment_codes]). *)
Record Contacts := {
  _send_payment_codes : list jsstring;
  _receive_payment_codes : list jsstring
}.

(** A payment code linked to a nym, and the account of a nym as the
    directory reports it; [following] may be missing. *)
Record LinkedCode := { code : jsstring; claimed : bool }.
Record DirectoryAccount := {
  codes : list LinkedCode;
  following : option (list jsstring)
}.

(** Modelled from the spec: [addBIP47Receiver] is a method of
    [AbstractHDElectrumWallet] (class/wallets/abstract-hd-electrum-wallet.ts),
    which is not among the sources.  The specification (section 4.4,
    [addToSenderList]): adding an already-present code is a no-op for list
    membership; the receiver list plays no part. *)
Definition addBIP47Receiver (paymentCode : jsstring) (w : Contacts) : Contacts :=
  if bool_decide (paymentCode ∈ _send_payment_codes w) then w
  else {| _send_payment_codes := _send_payment_codes w ++ [paymentCode];
          _receive_payment_codes := _receive_payment_codes w |}.

(** Modelled from the spec: the selection policy of
    [fetchBIP47ReceiverPaymentCodesViaPaynym], a method of
    [AbstractHDElectrumWallet] which is not among the sources.  The
    specification (section 4.4, [reconcileFromDirectory]): prefer the first
    code flagged [claimed: true]; if none are claimed, fall back to the first
    code in the list order. *)
Definition selectCode (codes : list LinkedCode) : option jsstring :=
  match List.find claimed codes with
  | Some c => Some (code c)
  | None =>
    match codes with
    | c :: _ => Some (code c)
    | [] => None
    end
  end.

(** Modelled from the spec: one followed nym is resolved to its account
    record, one of its codes is selected, and the code is added unless the
    sender list has it. *)
Definition reconcile_nym (directory : jsstring -> option DirectoryAccount)
    (w : Contacts) (nymId : jsstring) : Contacts :=
  match directory nymId with
  | Some account =>
    match selectCode (codes account) with
    | Some c => addBIP47Receiver c w
    | None => w
    end
  | None => w
  end.

(** Modelled from the spec: [fetchBIP47ReceiverPaymentCodesViaPaynym], a
    method of [AbstractHDElectrumWallet] which is not among the sources.  The
    specification (section 4.4, [reconcileFromDirectory]): given the wallet's
    own account, read its [following] relation and reconcile each followed
    nym in turn; a no-op when the payment-code feature is disabled, when the
    directory returns no account, or when [following] is absent or empty.
    [directory] is what the directory answers for an identifier, [None] when
    it returns no account. *)
Definition fetchBIP47ReceiverPaymentCodesViaPaynym
    (enabled : bool) (directory : jsstring -> option DirectoryAccount)
    (myPaymentCode : jsstring) (w : Contacts) : Contacts :=
  if negb enabled then w
  else
    match directory myPaymentCode with
    | None => w
    | Some account =>
      match following account with
      | None => w
      | Some nyms => foldl (reconcile_nym directory) w nyms
      end
    end.

End ContactRegistry.

(** ** The operations of the client, uniformly *)

Module Operations.
Import Js Effects PaynymDirectory.
Local Open Scope Z_scope.

(** The six operations of the client on the directory, and [add]. *)
Inductive operation :=
| Create (code : jsstring)
| Token (code : jsstring)
| Nym (nym : jsstring) (compact : bool)
| Claim (token signature : jsstring)
| Follow (token signature target : jsstring)
| Unfollow (token signature target : jsstring)
| Add (token signature nym code : jsstring) (segwit : bool).

Definition run (op : operation) : M PaynymResponse :=
  match op with
  | Create code => create code
  | Token code => token code
  | Nym n compact => nym n compact
  | Claim t s => claim t s
  | Follow t s target => follow t s target
  | Unfollow t s target => unfollow t s target
  | Add t s n c segwit => add t s n c segwit
  end.

(** The endpoint, the body and the additional headers an operation passes
    to [_post]. *)
Definition endpoint_of (op : operation) : jsstring :=
  match op with
  | Create _ => str "/create"
  | Token _ => str "/token"
  | Nym _ _ => str "/nym"
  | Claim _ _ => str "/claim"
  | Follow _ _ _ => str "/follow"
  | Unfollow _ _ _ => str "/unfollow"
  | Add _ _ _ _ _ => str "/nym/add"
  end.

Definition body_of (op : operation) : json :=
  match op with
  | Create code | Token code => JObj [(str "code", JStr code)]
  | Nym n compact =>
    JObj ((str "nym", JStr n) ::
          (if compact then [(str "compact", JBool true)] else []))
  | Claim _ s => JObj [(str "signature", JStr s)]
  | Follow _ s target | Unfollow _ s target =>
    JObj [(str "target", JStr target); (str "signature", JStr s)]
  | Add _ s n c segwit =>
    JObj [(str "nym", JStr n); (str "code", JStr c);
          (str "signature", JStr s); (str "segwit", JBool segwit)]
  end.

Definition extra_of (op : operation) : gmap jsstring jsstring :=
  match op with
  | Create _ | Token _ | Nym _ _ => ∅
  | Claim t _ | Follow t _ _ | Unfollow t _ _ | Add t _ _ _ _ => auth t
  end.

(** The request an operation hands to the transport. *)
Definition request_of (op : operation) : Request :=
  make_request (endpoint_of op) (body_of op) (extra_of op).

(** The message an operation attaches to a 200 response. *)
Definition message_200 (op : operation) : jsstring :=
  match op with
  | Create _ => str "PayNym already exists"
  | Token _ => str "Token was successfully updated"
  | Nym _ _ => str "Nym found and returned"
  | Claim _ _ => str "Payment code successfully claimed"
  | Follow _ _ _ => str "Added to followers"
  | Unfollow _ _ _ => str "Unfollowed successfully"
  | Add _ _ _ _ _ => str "Code added successfully"
  end.

(** What [_post] hands back to an operation, and what the operation makes of
    it. *)
Definition post_of (op : operation) : M (json * Z) :=
  _post (endpoint_of op) (body_of op) (extra_of op).

End Operations.

(** ** Sample collaborators

    Concrete transports, clocks and worlds on which the statements below are
    exercised. *)

Module Scenarios.
Import Js Effects PaynymDirectory Operations.
Local Open Scope Z_scope.

(** A response as the Fetch standard builds it, without headers. *)
Definition response (status : Z) (statusText : string) (data : json) : Response :=
  {| ok := (200 <=? status) && (status <=? 299);
     Effects.status := status;
     statusText := str statusText;
     json_result := Ok data;
     headers_get := fun _ => None |}.

Definition with_header (name value : string) (r : Response) : Response :=
  {| ok := ok r;
     status := status r;
     statusText := statusText r;
     json_result := json_result r;
     headers_get := fun k => if bool_decide (k = str name) then Some (str value)
                             else headers_get r k |}.

(** A transport that answers its calls with the listed outcomes, in order,
    and rejects any further call. *)
Definition scripted (script : list (outcome Response)) (clock : nat -> Z) : Env :=
  {| transport := fun n _ =>
       nth n script (Throw (ErrorObj (str "Network request failed")));
     Date_now := clock;
     engine_message := fun what => what |}.

Definition empty_world : World := {| storage := ∅; trace := []; ticks := 0 |}.

Definition not_found : Response :=
  response 404 "Not Found" (JObj [(str "message", JStr (str "Not found"))]).


Definition fresh_token : Response :=
  response 200 "OK" (JObj [(str "token", JStr (str "retry_tok"))]).

Definition PM8T : jsstring := str "PM8Ttest".

(** A wallet reduced to what the signing method asks of it, with stand-ins
    for the libraries: the key check accepts 32-byte keys, and the stand-in
    signature is the key followed by the message (it is not ECDSA). *)
Record TestWallet := {
  enabled : bool;
  paymentCode : jsstring;
  notificationKey : option HDSegwitBech32Wallet.bytes
}.

#[global] Instance test_collaborators : HDSegwitBech32Wallet.Collaborators TestWallet := {|
  HDSegwitBech32Wallet.isBIP47Enabled := enabled;
  HDSegwitBech32Wallet.getBIP47PaymentCode := fun w => Ok (paymentCode w);
  HDSegwitBech32Wallet.getNotificationNode := fun w =>
    Ok (Some {| HDSegwitBech32Wallet.privateKey := notificationKey w |});
  HDSegwitBech32Wallet.ECPair_fromPrivateKey := fun key =>
    if (length key =? 32)%nat then Ok tt
    else Throw (ErrorObj (str "Private key must be 32 bytes"));
  HDSegwitBech32Wallet.bitcoinMessage_sign := fun message key _ =>
    Ok (key ++ message)
|}.

Definition disabled_wallet : TestWallet :=
  {| enabled := false; paymentCode := str "PM8TJS2JxQ5ztXUpBBRnpTbcUXbUHy2T1";
     notificationKey := Some (repeat 7%N 32) |}.

Definition enabled_wallet : TestWallet :=
  {| enabled := true; paymentCode := str "PM8TJS2JxQ5ztXUpBBRnpTbcUXbUHy2T1";
     notificationKey := Some (repeat 7%N 32) |}.

(** The payment codes and nyms of the reconciliation tests. *)
Definition ALICE_PC : jsstring := str "PM8TJXuZNUtSibuXKFM6bhCxpNaSye6r4px2GXRV5v86uR".
Definition CHARLIE_PC : jsstring := str "PM8TJi1RuCrgSHTzGMoayUf8xUW6zYBGXBPSWwTiMhMMwq".
Definition MY_PC : jsstring := str "PM8TJTLJbPRGxSbc8EJi42Wrr6QbNSaSSVJ5Y3E4pbCYiT".

Definition no_contacts : ContactRegistry.Contacts :=
  {| ContactRegistry._send_payment_codes := [];
     ContactRegistry._receive_payment_codes := [] |}.

(** My account follows one nym, whose account links the given codes. *)
Definition directory_with (codes : list ContactRegistry.LinkedCode)
    (identifier : jsstring) : option ContactRegistry.DirectoryAccount :=
  if bool_decide (identifier = MY_PC) then
    Some {| ContactRegistry.codes :=
              [{| ContactRegistry.code := MY_PC; ContactRegistry.claimed := true |}];
            ContactRegistry.following := Some [str "alice_nym"] |}
  else if bool_decide (identifier = str "alice_nym") then
    Some {| ContactRegistry.codes := codes; ContactRegistry.following := None |}
  else None.

Definition account_fields : list (jsstring * json) :=
  [(str "codes", JArr []); (str "followers", JArr []);
   (str "following", JArr []); (str "nymID", JStr (str "nym123"));
   (str "nymName", JStr (str "+cached"))].

(** A clock that starts at one second and advances by a millisecond at each
    reading, and one stopped twenty-five hours in. *)
Definition ticking : nat -> Z := fun n => 1000 + Z.of_nat n.

(** An entry written at time 0. *)
Definition old_entry : PaynymInfo :=
  {| code := PM8T; nymID := None; nymName := Some (JStr (str "+stale"));
     avatar := None; followers := None; following := None; createdAt := None;
     cached_at := Some 0 |}.


(** The store of the test of [clearCache]. *)
Definition mixed_store : World :=
  {| storage := <[str "paynym_dir_PM8Ta" := Stringified old_entry]>
                  (<[str "paynym_dir_PM8Tb" := Stringified old_entry]>
                     (<[str "other_key" := Unparsable (str "kept")]> ∅));
     trace := []; ticks := 0 |}.

(** The contact lists of the sample wallets: Alice is in both. *)
#[global] Instance test_contact_lists
    : HDSegwitBech32Wallet.ContactLists TestWallet := {|
  HDSegwitBech32Wallet.getBIP47SenderPaymentCodes := fun _ => [ALICE_PC];
  HDSegwitBech32Wallet.getBIP47ReceiverPaymentCodes := fun _ => [ALICE_PC; CHARLIE_PC]
|}.



End Scenarios.

(** ** Auxiliary notions used in the statements and proofs *)

Module Measures.
Import Js Effects PaynymDirectory.




(** The world after one reading of the clock. *)
Definition tick (w : World) : World :=
  {| storage := storage w; trace := trace w; ticks := S (ticks w) |}.

(** What [getPaynymInfoCached] does once the cache could not answer: it
    fetches at the world [w0] the lookup left, and stores what it got. *)
Definition refreshed (paymentCode : jsstring) (env : Env) (w0 : World)
    : outcome (option PaynymInfo) * World :=
  let fetched := getPaynymInfo paymentCode env w0 in
  (fst fetched,
   match fst fetched with
   | Ok (Some info) =>
     set_storage (<[cache_key paymentCode := Stringified info]>
                    (storage (snd fetched))) (snd fetched)
   | _ => snd fetched
   end).

(** The entry the cache holds for a payment code, if it parses. *)
Definition entry (w : World) (paymentCode : jsstring) : option PaynymInfo :=
  match storage w !! cache_key paymentCode with
  | Some (Stringified info) => Some info
  | _ => None
  end.

(** The requests and timers of a trace beyond a given prefix. *)
Definition fetched_since (w w' : World) (request : Request) : Prop :=
  exists events,
    trace w' = trace w ++ Fetched request :: events
    /\ Forall (fun e => e = Fetched request \/ exists ms, e = Slept ms) events.

(** The ways a fetch from the directory yields no account: the transport
    rejects the call; the response is not [ok] (a 404, say); or its body is
    [null] or does not parse. *)
Definition no_account (o : outcome Response) : Prop :=
  match o with
  | Throw _ => True
  | Ok r =>
    status r <> 429%Z
    /\ (ok r = false \/ json_result r = Ok JNull
        \/ exists e, json_result r = Throw e)
  end.


(** How many entries of a list are a given payment code. *)
Definition occurrences (c : jsstring) (l : list jsstring) : nat :=
  length (List.filter (fun x => bool_decide (x = c)) l).

(** A call without a usable response: the transport rejects it, or the
    response is neither [ok] nor a 429. *)
Definition no_response (o : outcome Response) : Prop :=
  match o with
  | Throw _ => True
  | Ok r => status r <> 429%Z /\ ok r = false
  end.

(** What [_post] throws in that case. *)
Definition thrown_by (o : outcome Response) : option exn :=
  match o with
  | Throw e => Some e
  | Ok r => Some (http_error r)
  end.

(** The entry [getFollowing] and [getFollowers] build for one element of a
    relation: no payment code, and the [nymId] of the element. *)
Definition reference_of (follower : json) : PaynymInfo :=
  {| code := [];
     nymID := match follower with
              | JObj fields => assoc (str "nymId") fields
              | _ => None
              end;
     nymName := None; avatar := None; followers := None; following := None;
     createdAt := None; cached_at := None |}.

(** A byte. *)
Definition is_byte (b : N) : Prop := (b < 256)%N.

(** The characters of the base64 alphabet, and the padding character. *)
Definition is_base64_char (u : N) : Prop :=
  (65 <= u <= 90 \/ 97 <= u <= 122 \/ 48 <= u <= 57 \/ u = 43 \/ u = 47)%N.


(** [c.claimed], read as a condition, for an element of [codes]. *)
Definition claimed_flag (c : json) : bool :=
  truthy match c with
         | JObj fields => assoc (str "claimed") fields
         | _ => None
         end.


(** A string between double quotes. *)
Definition quoted (s : jsstring) : jsstring := 34%N :: s ++ [34%N].

(** The rows [onlyUnique] keeps after the elements [seen] before them: the
    first occurrence of each value. *)
Fixpoint first_occurrences (seen xs : list jsstring) : list jsstring :=
  match xs with
  | [] => []
  | x :: rest =>
    if bool_decide (x ∈ seen) then first_occurrences (seen ++ [x]) rest
    else x :: first_occurrences (seen ++ [x]) rest
  end.

End Measures.

(** ** Properties of the string encodings *)

Module JsFacts.
Import Js.
Local Open Scope N_scope.



Lemma surrogate_not_ascii u :
  is_high_surrogate u = true \/ is_low_surrogate u = true -> 0x80 <= u.
Proof.
  unfold is_high_surrogate, is_low_surrogate.
  intros [H|H]; apply andb_true_iff in H as [H _]; apply N.leb_le in H; lia.
Qed.






End JsFacts.

(** ** Properties of the directory client *)

Module DirectoryFacts.
Import Js Effects PaynymDirectory Operations Measures JsFacts.
Local Open Scope Z_scope.

Lemma run_throw op env w e w' :
  post_of op env w = (Throw e, w') ->
  run op env w = (Ok (failed e), w').
Proof.
  intros H; destruct op; unfold post_of in H;
    cbn [endpoint_of body_of extra_of] in H;
    unfold run, create, token, nym, claim, follow, unfollow, add, try_catch;
    unfold mbind, M_bind, bind; rewrite H; reflexivity.
Qed.

Lemma run_200 op env w data w' :
  post_of op env w = (Ok (data, 200), w') ->
  run op env w =
  (Ok {| value := data; statusCode := 200; message := JStr (message_200 op) |}, w').
Proof.
  intros H; destruct op; unfold post_of in H;
    cbn [endpoint_of body_of extra_of] in H;
    unfold run, create, token, nym, claim, follow, unfollow, add, try_catch;
    unfold mbind, M_bind, bind; rewrite H; reflexivity.
Qed.

(** Reading the message of an unlisted status touches nothing. *)
Lemma fallback_message_world result env w :
  snd (fallback_message result env w) = w.
Proof.
  unfold fallback_message, prop, engine_error, mbind, M_bind, bind, mret, M_ret, ret.
  destruct result; reflexivity.
Qed.

Ltac switch_on st :=
  destruct st as [|st|st]; simpl;
  do 9 (try match goal with
            | |- context [match st with _ => _ end] => destruct st; simpl
            end).

(** Past [_post], an operation performs no effect: the world it leaves is
    the one [_post] left. *)
Lemma run_world op env w : snd (run op env w) = snd (post_of op env w).
Proof.
  destruct op; unfold post_of; cbn [endpoint_of body_of extra_of];
    unfold run, create, token, nym, claim, follow, unfollow, add, try_catch,
      mbind, M_bind, bind;
    destruct (_post _ _ _ env w) as [[[data st]|e] w']; try reflexivity;
    cbn [snd];
    switch_on st;
    try reflexivity;
    try (pose proof (fallback_message_world data env w') as Hf;
         destruct (fallback_message data env w') as [[m|e] w'']; simpl in *;
         subst; reflexivity).
Qed.

Lemma fetch_count_fetched t r : fetch_count (t ++ [Fetched r]) = S (fetch_count t).
Proof.
  unfold fetch_count. rewrite List.filter_app, length_app. simpl. lia.
Qed.

Lemma fetch_count_slept t ms : fetch_count (t ++ [Slept ms]) = fetch_count t.
Proof.
  unfold fetch_count. rewrite List.filter_app, length_app. simpl. lia.
Qed.

Section Post.
Context (env : Env) (w : World).
Context (endpoint : jsstring) (body : json) (extra : gmap jsstring jsstring).

Let request := make_request endpoint body extra.
Let n := fetch_count (trace w).

(** The first call is rejected by the transport. *)
Lemma _post_rejected e :
  transport env n request = Throw e ->
  _post endpoint body extra env w = (Throw e, record (Fetched request) w).
Proof.
  intros H. unfold _post, try_catch, mbind, M_bind, bind, fetch.
  fold request. fold n. rewrite H. reflexivity.
Qed.

(** The first response is neither a 429 nor [ok]. *)
Lemma _post_not_ok r :
  transport env n request = Ok r ->
  status r <> 429 -> ok r = false ->
  _post endpoint body extra env w
  = (Throw (http_error r), record (Fetched request) w).
Proof.
  intros H Hs Hok. unfold _post, try_catch, mbind, M_bind, bind, fetch.
  fold request. fold n. rewrite H.
  apply Z.eqb_neq in Hs. rewrite Hs, Hok. reflexivity.
Qed.

(** The first response is [ok]. *)
Lemma _post_ok r :
  transport env n request = Ok r ->
  status r <> 429 -> ok r = true ->
  _post endpoint body extra env w
  = (match json_result r with
     | Ok data => Ok (data, status r)
     | Throw e => Throw e
     end, record (Fetched request) w).
Proof.
  intros H Hs Hok. unfold _post, try_catch, mbind, M_bind, bind, fetch.
  fold request. fold n. rewrite H.
  apply Z.eqb_neq in Hs. rewrite Hs, Hok. simpl.
  destruct (json_result r); reflexivity.
Qed.

(** The first response is a 429: one timer, one more call, no third. *)
Lemma _post_429 r1 :
  transport env n request = Ok r1 ->
  status r1 = 429 ->
  _post endpoint body extra env w
  = let w2 := record (Fetched request)
                (record (Slept (waitTime (headers_get r1 (str "Retry-After"))))
                   (record (Fetched request) w)) in
    match transport env (S n) request with
    | Ok r2 =>
      if ok r2 then
        (match json_result r2 with
         | Ok data => Ok (data, status r2)
         | Throw e => Throw e
         end, w2)
      else (Throw (http_error r2), w2)
    | Throw e => (Throw e, w2)
    end.
Proof.
  intros H Hs. unfold _post, try_catch, mbind, M_bind, bind, fetch, sleep.
  fold request. fold n. rewrite H, Hs. simpl.
  rewrite fetch_count_slept, fetch_count_fetched. fold n.
  destruct (transport env (S n) request) as [r2|e]; [|reflexivity].
  destruct (ok r2); simpl; [|reflexivity].
  destruct (json_result r2); reflexivity.
Qed.
End Post.



(** *** Expected failures (400, 401, 404) *)

(** C1, as the code behaves: a response the directory sends with status 400, 401
    or 404 is not [ok], so [_post] throws before the operation reaches its
    [switch]; every operation then answers from its [catch] block with the
    transport sentinel -1 and the text of the thrown error, not with the
    status of the response and the endpoint's message. *)
Theorem expected_failure_is_reported_as_sentinel op env w r :
  transport env (fetch_count (trace w)) (request_of op) = Ok r ->
  ok_status r ->
  status r = 400 \/ status r = 401 \/ status r = 404 ->
  fst (run op env w)
  = Ok {| value := JNull;
          statusCode := -1;
          message := JStr (str "HTTP " ++ Number_toString (status r)
                             ++ str ": " ++ statusText r) |}
  /\ trace (snd (run op env w)) = trace w ++ [Fetched (request_of op)].
Proof.
  intros Ht Hok Hs.
  assert (Hne : status r <> 429) by lia.
  assert (Hno : ok r = false).
  { unfold ok_status in Hok. rewrite Hok.
    destruct Hs as [-> | [-> | ->]]; reflexivity. }
  pose proof (_post_not_ok env w _ _ _ r Ht Hne Hno) as Hp.
  rewrite (run_throw op env w _ _ Hp). split; reflexivity.
Qed.

Lemma token_on_404 :
  fst (token Scenarios.PM8T
         (Scenarios.scripted [Ok Scenarios.not_found] (fun _ => 0))
         Scenarios.empty_world)
  = Ok {| value := JNull; statusCode := -1;
          message := JStr (str "HTTP 404: Not Found") |}.
Proof.
  apply (expected_failure_is_reported_as_sentinel (Token Scenarios.PM8T)
           (Scenarios.scripted [Ok Scenarios.not_found] (fun _ => 0))
           Scenarios.empty_world Scenarios.not_found).
  - reflexivity.
  - reflexivity.
  - right; right; reflexivity.
Defined.

(** *** Rate limiting (429) *)











(** The delay before the retry: the default of five seconds without a
    [Retry-After] header, the announced number of seconds otherwise. *)
Lemma waitTime_default : waitTime None = Finite 5000 /\ waitTime (Some []) = Finite 5000.
Proof. split; reflexivity. Qed.





(** *** Content-Length *)

(** Whatever the transport answers, [_post] hands it one request only,
    possibly twice, awaits timers in between, and touches neither the store
    nor the clock. *)
Lemma _post_events endpoint body extra env w :
  exists events,
    trace (snd (_post endpoint body extra env w))
    = trace w ++ Fetched (make_request endpoint body extra) :: events
    /\ Forall (fun e => e = Fetched (make_request endpoint body extra)
                        \/ exists ms, e = Slept ms) events
    /\ storage (snd (_post endpoint body extra env w)) = storage w
    /\ ticks (snd (_post endpoint body extra env w)) = ticks w.
Proof.
  destruct (transport env (fetch_count (trace w))
              (make_request endpoint body extra)) as [r|e] eqn:E.
  - destruct (Z.eq_dec (status r) 429) as [Hs|Hs].
    + rewrite (_post_429 env w _ _ _ r E Hs). cbv zeta.
      eexists [_; _].
      destruct (transport env (S _) _) as [r2|e2]; [destruct (ok r2)|];
        simpl; rewrite <- !app_assoc;
        (split; [reflexivity|]; split; [|split; reflexivity]);
        repeat (constructor;
                [first [left; reflexivity | right; eexists; reflexivity]|]);
        constructor.
    + destruct (ok r) eqn:Hok.
      * rewrite (_post_ok env w _ _ _ r E Hs Hok). exists []. simpl.
        repeat split; constructor.
      * rewrite (_post_not_ok env w _ _ _ r E Hs Hok). exists []. simpl.
        repeat split; constructor.
  - rewrite (_post_rejected env w _ _ _ e E). exists []. simpl.
    repeat split; constructor.
Qed.

(** No operation passes a [Content-Length] of its own to [_post]. *)
Lemma extra_of_no_content_length op :
  extra_of op !! str "Content-Length" = None.
Proof.
  destruct op; simpl; try apply lookup_empty;
    unfold auth; apply lookup_singleton_ne; discriminate.
Qed.



End DirectoryFacts.

(** ** Properties of the cache *)

Module CacheFacts.
Import Js Effects PaynymDirectory Operations Measures DirectoryFacts.
Local Open Scope Z_scope.

(** [getCachedPaynymInfo] reads the store and nothing else; a text that does
    not parse counts as no entry. *)
Lemma getCachedPaynymInfo_eq paymentCode env w :
  getCachedPaynymInfo paymentCode env w
  = (Ok match storage w !! cache_key paymentCode with
        | Some (Stringified info) => Some info
        | _ => None
        end, w).
Proof.
  unfold getCachedPaynymInfo, try_catch, getItem, mbind, M_bind, bind.
  destruct (storage w !! cache_key paymentCode) as [[info|raw]|]; try reflexivity.
  destruct raw; reflexivity.
Qed.

Lemma cachePaynymInfo_eq paymentCode info env w :
  cachePaynymInfo paymentCode info env w
  = (Ok tt, set_storage (<[cache_key paymentCode := Stringified info]> (storage w)) w).
Proof. reflexivity. Qed.

(** [nym] always returns a response object. *)
Lemma nym_returns n compact env w :
  exists response, fst (nym n compact env w) = Ok response.
Proof.
  unfold nym, try_catch.
  match goal with |- context [?m env w] =>
    match type of m with M _ => destruct (m env w) as [[a|e] w'] end end;
    eexists; reflexivity.
Qed.

(** The effects of [nym]: the request, possibly twice around a timer. *)
Lemma nym_effects n compact env w :
  let w' := snd (nym n compact env w) in
  (exists events,
     trace w' = trace w ++ Fetched (request_of (Nym n compact)) :: events
     /\ Forall (fun e => e = Fetched (request_of (Nym n compact))
                         \/ exists ms, e = Slept ms) events)
  /\ storage w' = storage w
  /\ ticks w' = ticks w.
Proof.
  cbv zeta. change (nym n compact) with (run (Nym n compact)).
  rewrite run_world. unfold post_of, request_of.
  destruct (_post_events (endpoint_of (Nym n compact)) (body_of (Nym n compact))
              (extra_of (Nym n compact)) env w) as (events & Ht & Hall & Hs & Hk).
  split; [exists events; split; assumption|]. split; assumption.
Qed.

Lemma prop_world o k env w : snd (prop o k env w) = w.
Proof. destruct o; reflexivity. Qed.

Lemma length_of_world v env w : snd (length_of v env w) = w.
Proof. destruct v as [[]|]; reflexivity. Qed.

(** [getPaynymInfo] never throws and never writes to the store.  When it
    returns a summary, the summary carries the payment code asked for and
    the time at which it was built. *)
Lemma getPaynymInfo_cases paymentCode env w :
  let w' := snd (getPaynymInfo paymentCode env w) in
  storage w' = storage w
  /\ (exists events,
        trace w' = trace w ++ Fetched (request_of (Nym paymentCode true)) :: events
        /\ Forall (fun e => e = Fetched (request_of (Nym paymentCode true))
                            \/ exists ms, e = Slept ms) events)
  /\ match fst (getPaynymInfo paymentCode env w) with
     | Ok (Some info) =>
       code info = paymentCode
       /\ cached_at info = Some (Date_now env (ticks w))
       /\ ticks w' = S (ticks w)
     | Ok None => ticks w' = ticks w
     | Throw _ => False
     end.
Proof.
  cbv zeta.
  destruct (nym_effects paymentCode true env w) as (Hev & Hst & Htk).
  destruct (nym_returns paymentCode true env w) as (response & Hr).
  unfold getPaynymInfo, try_catch, mbind, M_bind, bind.
  destruct (nym paymentCode true env w) as [o w1]. simpl in Hr, Hev, Hst, Htk.
  subst o.
  destruct (truthy (Some (value response)) && (statusCode response =? 200)) eqn:Ec;
    [|simpl; auto].
  pose proof (prop_world (value response) (str "nymID") env w1) as P1.
  destruct (prop (value response) (str "nymID") env w1) as [[v1|e1] w2];
    simpl in P1; subst w2; [|simpl; auto].
  pose proof (prop_world (value response) (str "nymName") env w1) as P2.
  destruct (prop (value response) (str "nymName") env w1) as [[v2|e2] w2];
    simpl in P2; subst w2; [|simpl; auto].
  pose proof (prop_world (value response) (str "followers") env w1) as P3.
  destruct (prop (value response) (str "followers") env w1) as [[v3|e3] w2];
    simpl in P3; subst w2; [|simpl; auto].
  pose proof (length_of_world v3 env w1) as P4.
  destruct (length_of v3 env w1) as [[v4|e4] w2];
    simpl in P4; subst w2; [|simpl; auto].
  pose proof (prop_world (value response) (str "following") env w1) as P5.
  destruct (prop (value response) (str "following") env w1) as [[v5|e5] w2];
    simpl in P5; subst w2; [|simpl; auto].
  pose proof (length_of_world v5 env w1) as P6.
  destruct (length_of v5 env w1) as [[v6|e6] w2];
    simpl in P6; subst w2; [|simpl; auto].
  simpl. rewrite Htk. auto.
Qed.


Lemma bind_eq {A B} (m : M A) (k : A -> M B) env w :
  (m ≫= k) env w
  = match m env w with
    | (Ok a, w') => k a env w'
    | (Throw e, w') => (Throw e, w')
    end.
Proof. reflexivity. Qed.

Lemma refresh_eq paymentCode env w0 :
  (paynymInfo ← getPaynymInfo paymentCode;
   match paynymInfo with
   | Some info => cachePaynymInfo paymentCode info
   | None => mret tt
   end;;
   mret paynymInfo) env w0
  = refreshed paymentCode env w0.
Proof.
  unfold refreshed. rewrite bind_eq.
  destruct (getPaynymInfo paymentCode env w0) as [[[info|]|e] w1]; reflexivity.
Qed.

Lemma getPaynymInfoCached_eq paymentCode forceRefresh env w :
  getPaynymInfoCached paymentCode forceRefresh env w
  = if forceRefresh then refreshed paymentCode env w
    else match entry w paymentCode with
         | Some c =>
           if young (Date_now env (ticks w)) c then (Ok (Some c), tick w)
           else refreshed paymentCode env (tick w)
         | None => refreshed paymentCode env w
         end.
Proof.
  unfold getPaynymInfoCached. rewrite bind_eq.
  destruct forceRefresh; cbn [negb].
  - cbn [mret M_ret ret]. apply refresh_eq.
  - rewrite bind_eq, getCachedPaynymInfo_eq. fold (entry w paymentCode).
    destruct (entry w paymentCode) as [c|].
    + rewrite bind_eq. cbn [now]. fold (tick w). cbn [mret M_ret ret].
      destruct (young (Date_now env (ticks w)) c); [reflexivity|apply refresh_eq].
    + cbn [mret M_ret ret]. apply refresh_eq.
Qed.

Lemma refreshed_cases paymentCode env w0 :
  let out := refreshed paymentCode env w0 in
  (exists events,
     trace (snd out)
     = trace w0 ++ Fetched (request_of (Nym paymentCode true)) :: events
     /\ Forall (fun e => e = Fetched (request_of (Nym paymentCode true))
                         \/ exists ms, e = Slept ms) events)
  /\ match fst out with
     | Ok (Some info) =>
       code info = paymentCode
       /\ cached_at info = Some (Date_now env (ticks w0))
       /\ storage (snd out)
          = <[cache_key paymentCode := Stringified info]> (storage w0)
       /\ ticks (snd out) = S (ticks w0)
     | Ok None => storage (snd out) = storage w0
     | Throw _ => False
     end.
Proof.
  cbv zeta. unfold refreshed.
  destruct (getPaynymInfo_cases paymentCode env w0) as (Hst & Hev & Hres).
  destruct (getPaynymInfo paymentCode env w0) as [[[info|]|e] w1];
    cbn [fst snd] in *.
  - split; [exact Hev|]. destruct Hres as (Hc & Ht & Hk).
    repeat split; try assumption. simpl. rewrite Hst. reflexivity.
  - split; [exact Hev|]. exact Hst.
  - contradiction.
Qed.




(** [nym] on a response that is [ok] but whose body is [null]: whatever the
    status, the value it returns is [null]. *)
Lemma nym_null_body n compact env w w1 st :
  post_of (Nym n compact) env w = (Ok (JNull, st), w1) ->
  exists response,
    nym n compact env w = (Ok response, w1) /\ value response = JNull.
Proof.
  unfold post_of. cbn [endpoint_of body_of extra_of]. intros Hp.
  unfold nym, try_catch, mbind, M_bind, bind. rewrite Hp.
  switch_on st; eexists; split; reflexivity.
Qed.



(** *** Clearing the cache *)

Lemma for_of_removeItem keys env w :
  for_of keys removeItem env w
  = (Ok tt, set_storage (foldl (fun m k => delete k m) (storage w) keys) w).
Proof.
  revert w. induction keys as [|k keys IH]; intros w.
  - destruct w; reflexivity.
  - cbn [for_of]. rewrite bind_eq. cbn [removeItem]. rewrite IH.
    destruct w; reflexivity.
Qed.

Lemma lookup_foldl_delete (keys : list jsstring) (m : gmap jsstring text) key :
  foldl (fun m k => delete k m) m keys !! key
  = if bool_decide (key ∈ keys) then None else m !! key.
Proof.
  revert m. induction keys as [|k keys IH]; intros m.
  - reflexivity.
  - cbn [foldl]. rewrite IH.
    destruct (decide (key = k)) as [->|Hne].
    + rewrite lookup_delete_eq.
      rewrite (bool_decide_eq_true_2 (k ∈ k :: keys)) by apply list_elem_of_here.
      destruct (bool_decide (k ∈ keys)); reflexivity.
    + rewrite lookup_delete_ne by congruence.
      destruct (decide (key ∈ keys)) as [Hin|Hout].
      * rewrite !bool_decide_eq_true_2; [reflexivity| |assumption].
        apply list_elem_of_further. assumption.
      * rewrite !bool_decide_eq_false_2; [reflexivity| |assumption].
        intros Hin. apply elem_of_cons in Hin as [?|?]; contradiction.
Qed.

Lemma stored_key (m : gmap jsstring text) key :
  key ∈ (map_to_list m).*1 <-> is_Some (m !! key).
Proof.
  rewrite list_elem_of_fmap. split.
  - intros ([k v] & -> & Hin). apply elem_of_map_to_list in Hin. eauto.
  - intros [v Hv]. exists (key, v). split; [reflexivity|].
    apply elem_of_map_to_list. exact Hv.
Qed.

(** C9: [clearCache] removes every key that starts with
    [STORAGE_KEY_PREFIX] and leaves every other key with its text; it
    returns normally and calls neither the transport nor a timer. *)
Theorem clearCache_removes_the_prefixed_keys_only env w :
  let out := clearCache env w in
  fst out = Ok tt
  /\ trace (snd out) = trace w
  /\ forall key,
       storage (snd out) !! key
       = if startsWith key STORAGE_KEY_PREFIX then None else storage w !! key.
Proof.
  cbv zeta. unfold clearCache, try_catch. rewrite bind_eq.
  cbn [getAllKeys]. rewrite for_of_removeItem. cbn [fst snd].
  split; [reflexivity|]. split; [reflexivity|].
  intros key. cbn [storage set_storage]. rewrite lookup_foldl_delete.
  destruct (startsWith key STORAGE_KEY_PREFIX) eqn:Ep.
  - destruct (storage w !! key) as [t|] eqn:Ek.
    + rewrite bool_decide_eq_true_2; [reflexivity|].
      apply list_elem_of_In, filter_In. split; [|exact Ep].
      apply list_elem_of_In, stored_key. eauto.
    + destruct (bool_decide _); reflexivity.
  - rewrite bool_decide_eq_false_2; [reflexivity|].
    intros Hin. apply list_elem_of_In, filter_In in Hin as [_ Hp]. congruence.
Qed.

(** *** The statements on sample collaborators *)



Lemma clearCache_on_mixed_store :
  let out := clearCache (Scenarios.scripted [] Scenarios.ticking)
               Scenarios.mixed_store in
  storage (snd out) !! str "paynym_dir_PM8Ta" = None
  /\ storage (snd out) !! str "paynym_dir_PM8Tb" = None
  /\ storage (snd out) !! str "other_key" = Some (Unparsable (str "kept")).
Proof.
  destruct (clearCache_removes_the_prefixed_keys_only
              (Scenarios.scripted [] Scenarios.ticking) Scenarios.mixed_store)
    as (_ & _ & Hkeys).
  cbv zeta. rewrite !Hkeys. split; [reflexivity|]. split; [reflexivity|].
  cbn [startsWith]. unfold Scenarios.mixed_store. cbn [storage].
  rewrite !lookup_insert_ne by discriminate. rewrite lookup_insert_eq.
  reflexivity.
Defined.

End CacheFacts.

(** ** Properties of the wallet *)

Module WalletFacts.
Import Js Effects HDSegwitBech32Wallet.

(** C8: with the payment-code feature off, [generatePaynymClaimSignature]
    throws the error "BIP47 is not enabled for this wallet", whatever the
    token, and produces no signature. *)
Theorem signing_requires_bip47 {Wallet : Type} `{Collaborators Wallet}
    (this : Wallet) (token : jsstring) :
  isBIP47Enabled this = false ->
  generatePaynymClaimSignature this token
  = Throw (ErrorObj (str "BIP47 is not enabled for this wallet")).
Proof.
  intros Hoff. unfold generatePaynymClaimSignature, allowBIP47.
  rewrite Hoff. reflexivity.
Qed.

Lemma signing_on_disabled_wallet :
  generatePaynymClaimSignature Scenarios.disabled_wallet (str "test_token")
  = Throw (ErrorObj (str "BIP47 is not enabled for this wallet")).
Proof.
  apply (signing_requires_bip47 Scenarios.disabled_wallet (str "test_token")).
  reflexivity.
Defined.

(** With the feature on, a payment code and a notification key at hand, the
    result is the base64 form of what the signing primitive returns for the
    token and that key, provided the key passes the curve check; nothing
    else of the wallet enters. *)
Lemma signature_is_signed_token {Wallet : Type} `{Collaborators Wallet}
    (this : Wallet) (token paymentCode : jsstring) (key : bytes) :
  isBIP47Enabled this = true ->
  getBIP47PaymentCode this = Ok paymentCode -> paymentCode <> [] ->
  getNotificationNode this = Ok (Some {| privateKey := Some key |}) ->
  generatePaynymClaimSignature this token
  = and_then (ECPair_fromPrivateKey key) (fun _ =>
    and_then (bitcoinMessage_sign token key true) (fun signature =>
    Ok (base64_encode signature))).
Proof.
  intros Hon Hpc Hne Hnode. unfold generatePaynymClaimSignature, allowBIP47.
  rewrite Hon, Hpc. cbn [negb orb and_then].
  destruct paymentCode; [congruence|]. rewrite Hnode. reflexivity.
Qed.

Example signing_on_enabled_wallet :
  generatePaynymClaimSignature Scenarios.enabled_wallet (str "tok")
  = Ok (base64_encode (repeat 7%N 32 ++ str "tok")).
Proof. reflexivity. Qed.

End WalletFacts.

(** ** Properties of the contact registry *)

Module RegistryFacts.
Import Js ContactRegistry Measures.

Lemma occurrences_app c l1 l2 :
  occurrences c (l1 ++ l2) = (occurrences c l1 + occurrences c l2)%nat.
Proof. unfold occurrences. rewrite List.filter_app, length_app. reflexivity. Qed.

Lemma occurrences_absent c l : c ∉ l -> occurrences c l = 0%nat.
Proof.
  unfold occurrences. induction l as [|x l IH]; intros Hc; [reflexivity|].
  apply not_elem_of_cons in Hc as [Hne Hc]. simpl.
  rewrite bool_decide_eq_false_2 by congruence. apply IH, Hc.
Qed.

Lemma occurrences_NoDup c l : NoDup l -> c ∈ l -> occurrences c l = 1%nat.
Proof.
  induction 1 as [|x l Hx Hnd IH]; intros Hc; [inversion Hc|].
  change (x :: l) with ([x] ++ l). rewrite occurrences_app.
  apply elem_of_cons in Hc as [->|Hc].
  - rewrite (occurrences_absent x l Hx). unfold occurrences. simpl.
    rewrite bool_decide_eq_true_2 by reflexivity. reflexivity.
  - rewrite (IH Hc). unfold occurrences. simpl.
    rewrite bool_decide_eq_false_2; [reflexivity|].
    intros ->. contradiction.
Qed.

Lemma occurrences_self c : occurrences c [c] = 1%nat.
Proof.
  unfold occurrences. simpl. rewrite bool_decide_eq_true_2 by reflexivity.
  reflexivity.
Qed.

Lemma occurrences_other c x : x <> c -> occurrences c [x] = 0%nat.
Proof.
  intros Hne. unfold occurrences. simpl.
  rewrite bool_decide_eq_false_2 by assumption. reflexivity.
Qed.

Lemma addBIP47Receiver_present c w :
  c ∈ _send_payment_codes w -> addBIP47Receiver c w = w.
Proof.
  intros Hin. unfold addBIP47Receiver.
  rewrite bool_decide_eq_true_2 by assumption. reflexivity.
Qed.

Lemma addBIP47Receiver_absent c w :
  c ∉ _send_payment_codes w ->
  addBIP47Receiver c w
  = {| _send_payment_codes := _send_payment_codes w ++ [c];
       _receive_payment_codes := _receive_payment_codes w |}.
Proof.
  intros Hout. unfold addBIP47Receiver.
  rewrite bool_decide_eq_false_2 by assumption. reflexivity.
Qed.

Lemma addBIP47Receiver_member c w :
  c ∈ _send_payment_codes (addBIP47Receiver c w).
Proof.
  destruct (decide (c ∈ _send_payment_codes w)) as [Hin|Hout].
  - rewrite addBIP47Receiver_present; assumption.
  - rewrite addBIP47Receiver_absent by assumption. simpl.
    apply elem_of_app. right. apply list_elem_of_here.
Qed.

Lemma addBIP47Receiver_NoDup c w :
  NoDup (_send_payment_codes w) ->
  NoDup (_send_payment_codes (addBIP47Receiver c w)).
Proof.
  intros Hnd. destruct (decide (c ∈ _send_payment_codes w)) as [Hin|Hout].
  - rewrite addBIP47Receiver_present; assumption.
  - rewrite addBIP47Receiver_absent by assumption. simpl.
    apply NoDup_app. split; [assumption|]. split.
    + intros x Hx Hx'. apply list_elem_of_singleton in Hx'. subst. contradiction.
    + apply NoDup_singleton.
Qed.

(** C6: adding a payment code to the sender list makes it a member; adding
    it again changes nothing; a sender list without duplicates stays without
    duplicates and holds the code exactly once; the receiver list is not
    looked at and not touched, so a code of the receiver list ends up in both
    lists. *)
Theorem addBIP47Receiver_idempotent (paymentCode : jsstring) (w : Contacts) :
  let w1 := addBIP47Receiver paymentCode w in
  paymentCode ∈ _send_payment_codes w1
  /\ addBIP47Receiver paymentCode w1 = w1
  /\ (paymentCode ∈ _send_payment_codes w -> w1 = w)
  /\ (NoDup (_send_payment_codes w) ->
      NoDup (_send_payment_codes w1)
      /\ occurrences paymentCode (_send_payment_codes w1) = 1%nat
      /\ occurrences paymentCode
           (_send_payment_codes (addBIP47Receiver paymentCode w1)) = 1%nat)
  /\ (forall c, c <> paymentCode ->
        occurrences c (_send_payment_codes w1)
        = occurrences c (_send_payment_codes w))
  /\ _receive_payment_codes w1 = _receive_payment_codes w
  /\ (paymentCode ∈ _receive_payment_codes w ->
      paymentCode ∈ _send_payment_codes w1
      /\ paymentCode ∈ _receive_payment_codes w1).
Proof.
  cbv zeta.
  pose proof (addBIP47Receiver_member paymentCode w) as Hmem.
  assert (Hagain : addBIP47Receiver paymentCode (addBIP47Receiver paymentCode w)
                   = addBIP47Receiver paymentCode w)
    by (apply addBIP47Receiver_present, Hmem).
  assert (Hrecv : _receive_payment_codes (addBIP47Receiver paymentCode w)
                  = _receive_payment_codes w).
  { unfold addBIP47Receiver. destruct (bool_decide _); reflexivity. }
  split; [exact Hmem|]. split; [exact Hagain|].
  split; [apply addBIP47Receiver_present|].
  split; [|split; [|split]].
  - intros Hnd. pose proof (addBIP47Receiver_NoDup paymentCode w Hnd) as Hnd1.
    split; [exact Hnd1|]. rewrite Hagain.
    split; apply occurrences_NoDup; assumption.
  - intros c Hne. destruct (decide (paymentCode ∈ _send_payment_codes w)).
    + rewrite addBIP47Receiver_present by assumption. reflexivity.
    + rewrite addBIP47Receiver_absent by assumption. simpl.
      rewrite occurrences_app, occurrences_other by congruence. lia.
  - exact Hrecv.
  - intros Hin. split; [exact Hmem|]. rewrite Hrecv. exact Hin.
Qed.

(** *** Reconciliation with the directory *)

Lemma find_first_claimed before c after :
  Forall (fun x => claimed x = false) before -> claimed c = true ->
  List.find claimed (before ++ c :: after) = Some c.
Proof.
  intros Hb Hc. induction Hb as [|x before Hx _ IH]; simpl.
  - rewrite Hc. reflexivity.
  - rewrite Hx. exact IH.
Qed.

Lemma find_none_claimed l :
  Forall (fun x => claimed x = false) l -> List.find claimed l = None.
Proof.
  induction 1 as [|x l Hx _ IH]; simpl; [reflexivity|]. rewrite Hx. exact IH.
Qed.

(** One followed nym adds at most the code selected from its account. *)
Lemma reconcile_nym_cases directory w nymId :
  reconcile_nym directory w nymId = w
  \/ exists account c,
       directory nymId = Some account
       /\ selectCode (codes account) = Some c
       /\ reconcile_nym directory w nymId = addBIP47Receiver c w.
Proof.
  unfold reconcile_nym.
  destruct (directory nymId) as [account|]; [|left; reflexivity].
  destruct (selectCode (codes account)) as [c|] eqn:Hsel; [|left; reflexivity].
  right. exists account, c. repeat split. exact Hsel.
Qed.

Lemma addBIP47Receiver_grows c w :
  exists added,
    _send_payment_codes (addBIP47Receiver c w) = _send_payment_codes w ++ added
    /\ (length added <= 1)%nat
    /\ (forall x, x ∈ added -> x = c /\ x ∉ _send_payment_codes w)
    /\ _receive_payment_codes (addBIP47Receiver c w) = _receive_payment_codes w.
Proof.
  destruct (decide (c ∈ _send_payment_codes w)) as [Hin|Hout].
  - rewrite addBIP47Receiver_present by assumption. exists [].
    rewrite app_nil_r. split; [reflexivity|]. split; [simpl; lia|].
    split; [|reflexivity]. intros x Hx. inversion Hx.
  - rewrite addBIP47Receiver_absent by assumption. exists [c]. simpl.
    split; [reflexivity|]. split; [lia|]. split; [|reflexivity].
    intros x Hx. apply list_elem_of_singleton in Hx. subst. auto.
Qed.

Lemma reconcile_all directory nyms : forall w,
  let w' := foldl (reconcile_nym directory) w nyms in
  (exists added,
     _send_payment_codes w' = _send_payment_codes w ++ added
     /\ (length added <= length nyms)%nat)
  /\ (forall c,
        c ∈ _send_payment_codes w' <->
        c ∈ _send_payment_codes w
        \/ exists nymId account,
             nymId ∈ nyms /\ directory nymId = Some account
             /\ selectCode (codes account) = Some c)
  /\ (NoDup (_send_payment_codes w) -> NoDup (_send_payment_codes w'))
  /\ _receive_payment_codes w' = _receive_payment_codes w.
Proof.
  induction nyms as [|nymId nyms IH]; intros w; cbv zeta.
  - simpl. split; [exists []; rewrite app_nil_r; auto|].
    split; [|auto]. intros c. split; [auto|].
    intros [Hc|(n & a & Hn & _)]; [exact Hc|inversion Hn].
  - cbn [foldl].
    destruct (IH (reconcile_nym directory w nymId))
      as ((added & Hsend & Hlen) & Hmem & Hnd & Hrecv).
    destruct (reconcile_nym_cases directory w nymId)
      as [Hsame|(account & c0 & Hd & Hsel & Hadd)].
    + rewrite Hsame in *. split; [|split; [|split]].
      * exists added. split; [exact Hsend|]. simpl. lia.
      * intros c. rewrite Hmem. split.
        -- intros [Hc|(n & a & Hn & Ha & Hs)]; [left; exact Hc|].
           right. exists n, a. split; [apply list_elem_of_further, Hn|auto].
        -- intros [Hc|(n & a & Hn & Ha & Hs)]; [left; exact Hc|].
           apply elem_of_cons in Hn as [->|Hn].
           ++ unfold reconcile_nym in Hsame. rewrite Ha, Hs in Hsame.
              left. rewrite <- Hsame. apply addBIP47Receiver_member.
           ++ right. eauto.
      * exact Hnd.
      * exact Hrecv.
    + rewrite Hadd in *.
      destruct (addBIP47Receiver_grows c0 w) as (one & Hone & Hlen1 & Hin1 & Hr1).
      split; [|split; [|split]].
      * exists (one ++ added). rewrite Hsend, Hone, <- app_assoc.
        split; [reflexivity|]. rewrite length_app. simpl. lia.
      * intros c. rewrite Hmem, Hone, elem_of_app. split.
        -- intros [[Hc|Hc]|(n & a & Hn & Ha & Hs)].
           ++ left. exact Hc.
           ++ right. destruct (Hin1 c Hc) as [-> _].
              exists nymId, account. split; [apply list_elem_of_here|auto].
           ++ right. exists n, a. split; [apply list_elem_of_further, Hn|auto].
        -- intros [Hc|(n & a & Hn & Ha & Hs)]; [left; left; exact Hc|].
           apply elem_of_cons in Hn as [->|Hn].
           ++ left. rewrite <- elem_of_app, <- Hone.
              assert (c = c0) as -> by congruence.
              apply addBIP47Receiver_member.
           ++ right. eauto.
      * intros Hw. apply Hnd, addBIP47Receiver_NoDup, Hw.
      * rewrite Hrecv. exact Hr1.
Qed.

(** C5: the code selected for a followed nym is its first code flagged
    [claimed], or its first code when none is flagged.  Reconciliation
    appends to the sender list at most one code per followed nym, namely
    the selected code of each followed nym the directory resolves, and
    never a code the list already holds; the receiver list is untouched.
    With the feature disabled, with no account for the wallet, or with
    [following] missing or empty, the wallet is unchanged. *)
Theorem reconcile_selects_one_code_per_followed_nym
    (enabled : bool) (directory : jsstring -> option DirectoryAccount)
    (myPaymentCode : jsstring) (w : Contacts) :
  let w' :=
    fetchBIP47ReceiverPaymentCodesViaPaynym enabled directory myPaymentCode w in
  (forall before c after,
     Forall (fun x => claimed x = false) before -> claimed c = true ->
     selectCode (before ++ c :: after) = Some (code c))
  /\ (forall c rest,
        Forall (fun x => claimed x = false) (c :: rest) ->
        selectCode (c :: rest) = Some (code c))
  /\ (forall account nyms,
        enabled = true -> directory myPaymentCode = Some account ->
        following account = Some nyms ->
        (exists added,
           _send_payment_codes w' = _send_payment_codes w ++ added
           /\ (length added <= length nyms)%nat)
        /\ (forall c,
              c ∈ _send_payment_codes w' <->
              c ∈ _send_payment_codes w
              \/ exists nymId followed,
                   nymId ∈ nyms /\ directory nymId = Some followed
                   /\ selectCode (codes followed) = Some c)
        /\ (NoDup (_send_payment_codes w) -> NoDup (_send_payment_codes w')))
  /\ _receive_payment_codes w' = _receive_payment_codes w
  /\ (enabled = false -> w' = w)
  /\ (directory myPaymentCode = None -> w' = w)
  /\ (forall account,
        directory myPaymentCode = Some account ->
        following account = None \/ following account = Some [] ->
        w' = w).
Proof.
  cbv zeta. unfold fetchBIP47ReceiverPaymentCodesViaPaynym.
  split; [|split; [|split; [|split; [|split; [|split]]]]].
  - intros before c after Hb Hc. unfold selectCode.
    rewrite (find_first_claimed before c after Hb Hc). reflexivity.
  - intros c rest Hall. unfold selectCode.
    rewrite (find_none_claimed _ Hall). reflexivity.
  - intros account nyms -> Hd Hf. cbn [negb]. rewrite Hd, Hf.
    destruct (reconcile_all directory nyms w) as (Hadd & Hmem & Hnd & _).
    split; [exact Hadd|]. split; [exact Hmem|exact Hnd].
  - destruct enabled; cbn [negb]; [|reflexivity].
    destruct (directory myPaymentCode) as [account|]; [|reflexivity].
    destruct (following account) as [nyms|]; [|reflexivity].
    apply reconcile_all.
  - intros ->. reflexivity.
  - intros ->. destruct (negb enabled); reflexivity.
  - intros account -> [->| ->]; destruct (negb enabled); reflexivity.
Qed.

(** The cases of the wallet tests: of an unclaimed and a claimed code the
    claimed one is added; of two unclaimed codes the first. *)
Example reconcile_prefers_claimed :
  fetchBIP47ReceiverPaymentCodesViaPaynym true
    (Scenarios.directory_with
       [{| code := Scenarios.CHARLIE_PC; claimed := false |};
        {| code := Scenarios.ALICE_PC; claimed := true |}])
    Scenarios.MY_PC Scenarios.no_contacts
  = {| _send_payment_codes := [Scenarios.ALICE_PC];
       _receive_payment_codes := [] |}.
Proof. reflexivity. Qed.

Example reconcile_falls_back_to_first :
  fetchBIP47ReceiverPaymentCodesViaPaynym true
    (Scenarios.directory_with
       [{| code := Scenarios.CHARLIE_PC; claimed := false |};
        {| code := Scenarios.ALICE_PC; claimed := false |}])
    Scenarios.MY_PC Scenarios.no_contacts
  = {| _send_payment_codes := [Scenarios.CHARLIE_PC];
       _receive_payment_codes := [] |}.
Proof. reflexivity. Qed.

Example reconcile_skips_known_code :
  fetchBIP47ReceiverPaymentCodesViaPaynym true
    (Scenarios.directory_with
       [{| code := Scenarios.ALICE_PC; claimed := true |}])
    Scenarios.MY_PC
    {| _send_payment_codes := [Scenarios.ALICE_PC];
       _receive_payment_codes := [] |}
  = {| _send_payment_codes := [Scenarios.ALICE_PC];
       _receive_payment_codes := [] |}.
Proof. reflexivity. Qed.

Lemma add_code_of_receiver_list :
  let w := {| _send_payment_codes := [];
              _receive_payment_codes := [Scenarios.ALICE_PC] |} in
  let w2 := addBIP47Receiver Scenarios.ALICE_PC
              (addBIP47Receiver Scenarios.ALICE_PC w) in
  occurrences Scenarios.ALICE_PC (_send_payment_codes w2) = 1%nat
  /\ Scenarios.ALICE_PC ∈ _send_payment_codes w2
  /\ Scenarios.ALICE_PC ∈ _receive_payment_codes w2.
Proof.
  destruct (addBIP47Receiver_idempotent Scenarios.ALICE_PC
              {| _send_payment_codes := [];
                 _receive_payment_codes := [Scenarios.ALICE_PC] |})
    as (_ & Hagain & _ & Hnodup & _ & _ & Hboth).
  cbv zeta. rewrite Hagain.
  destruct (Hnodup NoDup_nil_2) as (_ & Hone & _).
  destruct (Hboth (list_elem_of_here _ _)) as (Hs & Hr).
  split; [exact Hone|]. split; [exact Hs|exact Hr].
Defined.

Lemma reconcile_with_one_followed_nym :
  let directory :=
    Scenarios.directory_with
      [{| code := Scenarios.CHARLIE_PC; claimed := false |};
       {| code := Scenarios.ALICE_PC; claimed := true |}] in
  let w' := fetchBIP47ReceiverPaymentCodesViaPaynym true directory
              Scenarios.MY_PC Scenarios.no_contacts in
  Scenarios.ALICE_PC ∈ _send_payment_codes w'
  /\ NoDup (_send_payment_codes w')
  /\ (exists added, _send_payment_codes w' = [] ++ added
                    /\ (length added <= 1)%nat).
Proof.
  destruct (reconcile_selects_one_code_per_followed_nym true
              (Scenarios.directory_with
                 [{| code := Scenarios.CHARLIE_PC; claimed := false |};
                  {| code := Scenarios.ALICE_PC; claimed := true |}])
              Scenarios.MY_PC Scenarios.no_contacts)
    as (_ & _ & Hrec & _).
  destruct (Hrec _ [str "alice_nym"] eq_refl eq_refl eq_refl)
    as (Hadded & Hmem & Hnd).
  split; [|split; [exact (Hnd NoDup_nil_2)|exact Hadded]].
  apply Hmem. right. eexists. eexists.
  split; [apply list_elem_of_here|]. split; reflexivity.
Defined.

End RegistryFacts.

(** ** Further properties of the directory operations *)

Module DirectoryMore.
Import Js Effects PaynymDirectory Operations Measures DirectoryFacts.
Local Open Scope Z_scope.

(** The text an operation reports for a thrown value. *)
Lemma failed_eq e :
  failed e
  = {| value := JNull; statusCode := -1;
       message := JStr match e with
                       | ErrorObj msg => msg
                       | Thrown _ => str "Unknown error"
                       end |}.
Proof. reflexivity. Qed.

(** X1: when the transport rejects the call of an operation, the operation
    returns the sentinel result: no value, status -1, and the message of the
    error (or "Unknown error" when what was thrown is not an Error).  The
    call is not repeated. *)
Theorem transport_failure_is_reported_as_sentinel op env w e :
  transport env (fetch_count (trace w)) (request_of op) = Throw e ->
  run op env w
  = (Ok {| value := JNull; statusCode := -1;
           message := JStr match e with
                           | ErrorObj msg => msg
                           | Thrown _ => str "Unknown error"
                           end |},
     record (Fetched (request_of op)) w).
Proof.
  intros Ht.
  pose proof (_post_rejected env w (endpoint_of op) (body_of op) (extra_of op)
                e Ht) as Hp.
  rewrite (run_throw op env w _ _ Hp). reflexivity.
Qed.

Lemma create_without_network :
  fst (create Scenarios.PM8T (Scenarios.scripted [] Scenarios.ticking)
         Scenarios.empty_world)
  = Ok {| value := JNull; statusCode := -1;
          message := JStr (str "Network request failed") |}.
Proof.
  change (create Scenarios.PM8T) with (run (Create Scenarios.PM8T)).
  rewrite (transport_failure_is_reported_as_sentinel (Create Scenarios.PM8T)
             (Scenarios.scripted [] Scenarios.ticking) Scenarios.empty_world
             (ErrorObj (str "Network request failed")) eq_refl).
  reflexivity.
Defined.

Lemma run_201 code env w data w' :
  post_of (Create code) env w = (Ok (data, 201), w') ->
  run (Create code) env w
  = (Ok {| value := data; statusCode := 201;
           message := JStr (str "PayNym created successfully") |}, w').
Proof.
  unfold post_of. cbn [endpoint_of body_of extra_of]. intros H.
  unfold run, create, try_catch, mbind, M_bind, bind. rewrite H. reflexivity.
Qed.

(** X2: a response that is [ok] with status 200 makes every operation
    return the body of the response as its value, with status 200 and the
    success message of the operation, after a single transport call;
    [create] does the same for status 201, with the message of a new
    PayNym. *)
Theorem ok_response_is_returned_as_value op env w r data :
  transport env (fetch_count (trace w)) (request_of op) = Ok r ->
  ok r = true -> json_result r = Ok data ->
  status r = 200 \/ (status r = 201 /\ exists code, op = Create code) ->
  run op env w
  = (Ok {| value := data; statusCode := status r;
           message := JStr (if status r =? 200 then message_200 op
                            else str "PayNym created successfully") |},
     record (Fetched (request_of op)) w).
Proof.
  intros Ht Hok Hj Hs.
  assert (Hne : status r <> 429) by (destruct Hs as [->|[-> _]]; lia).
  pose proof (_post_ok env w (endpoint_of op) (body_of op) (extra_of op)
                r Ht Hne Hok) as Hp.
  rewrite Hj in Hp. destruct Hs as [Hs|[Hs (code & ->)]]; rewrite Hs in *.
  - exact (run_200 op env w _ _ Hp).
  - exact (run_201 code env w _ _ Hp).
Qed.

Lemma create_answers_201 :
  fst (create Scenarios.PM8T
         (Scenarios.scripted
            [Ok (Scenarios.response 201 "Created" (JObj Scenarios.account_fields))]
            Scenarios.ticking)
         Scenarios.empty_world)
  = Ok {| value := JObj Scenarios.account_fields; statusCode := 201;
          message := JStr (str "PayNym created successfully") |}.
Proof.
  change (create Scenarios.PM8T) with (run (Create Scenarios.PM8T)).
  rewrite (ok_response_is_returned_as_value (Create Scenarios.PM8T)
             (Scenarios.scripted
                [Ok (Scenarios.response 201 "Created"
                       (JObj Scenarios.account_fields))]
                Scenarios.ticking)
             Scenarios.empty_world
             (Scenarios.response 201 "Created" (JObj Scenarios.account_fields))
             (JObj Scenarios.account_fields) eq_refl eq_refl eq_refl
             (or_intror (conj eq_refl (ex_intro _ Scenarios.PM8T eq_refl)))).
  reflexivity.
Defined.

(** X3: no operation ever throws, whatever the transport does; and a result
    whose value is not [null] has status 200, or 201 from [create]. *)
Theorem operation_returns_value_only_on_success op env w :
  exists response,
    fst (run op env w) = Ok response
    /\ (value response <> JNull ->
        statusCode response = 200
        \/ (statusCode response = 201 /\ exists code, op = Create code)).
Proof.
  destruct op; unfold run, create, token, nym, claim, follow, unfollow, add,
    try_catch, mbind, M_bind, bind;
    destruct (_post _ _ _ env w) as [[[data st]|e] w'];
    try (eexists; split; [reflexivity|]; cbn [value failed]; congruence);
    switch_on st;
    try (eexists; split; [reflexivity|]; cbn [value statusCode]; intros Hv;
         first [congruence | left; reflexivity
               | right; split; [reflexivity|eexists; reflexivity]]);
    unfold fallback_message, prop, engine_error, mbind, M_bind, bind, mret,
      M_ret, ret;
    destruct data; eexists; (split; [reflexivity|]); cbn [value failed];
    congruence.
Qed.

(** X4: an operation leaves the store and the clock alone and calls the
    transport once, or, exactly when the first response is a 429, twice
    around one timer. *)
Theorem operation_effects op env w :
  let w' := snd (run op env w) in
  let request := request_of op in
  storage w' = storage w
  /\ ticks w' = ticks w
  /\ ((trace w' = trace w ++ [Fetched request]
       /\ forall r, transport env (fetch_count (trace w)) request = Ok r ->
                    status r <> 429)
      \/ (exists r,
            transport env (fetch_count (trace w)) request = Ok r
            /\ status r = 429
            /\ trace w'
               = trace w ++ [Fetched request;
                             Slept (waitTime (headers_get r (str "Retry-After")));
                             Fetched request])).
Proof.
  cbv zeta. rewrite run_world. unfold post_of, request_of.
  set (request := make_request (endpoint_of op) (body_of op) (extra_of op)).
  destruct (transport env (fetch_count (trace w)) request) as [r|e] eqn:E.
  - destruct (Z.eq_dec (status r) 429) as [Hs|Hs].
    + rewrite (_post_429 env w _ _ _ r E Hs). cbv zeta. fold request.
      assert (Hw : forall o : outcome (json * Z) * World,
                snd o = record (Fetched request)
                          (record (Slept (waitTime (headers_get r (str "Retry-After"))))
                             (record (Fetched request) w)) ->
                storage (snd o) = storage w /\ ticks (snd o) = ticks w
                /\ trace (snd o)
                   = trace w ++ [Fetched request;
                                 Slept (waitTime (headers_get r (str "Retry-After")));
                                 Fetched request]).
      { intros o ->. simpl. rewrite <- !app_assoc. auto. }
      match goal with |- context [snd ?o] =>
        destruct (Hw o) as (H1 & H2 & H3) end.
      { destruct (transport env (S _) request) as [r2|e2];
          [destruct (ok r2)|]; reflexivity. }
      split; [exact H1|]. split; [exact H2|]. right. exists r. auto.
    + assert (Hone : snd (_post (endpoint_of op) (body_of op) (extra_of op) env w)
                     = record (Fetched request) w).
      { destruct (ok r) eqn:Hok.
        - rewrite (_post_ok env w _ _ _ r E Hs Hok). reflexivity.
        - rewrite (_post_not_ok env w _ _ _ r E Hs Hok). reflexivity. }
      rewrite Hone. split; [reflexivity|]. split; [reflexivity|]. left.
      split; [reflexivity|]. intros r' Hr'. congruence.
  - rewrite (_post_rejected env w _ _ _ e E). split; [reflexivity|].
    split; [reflexivity|]. left. split; [reflexivity|]. intros r' Hr'. discriminate.
Qed.

Lemma parseInt_letter u rest :
  In u (str "ABCDEFGHIJKLMNOPQRSTUVWXYZabcdefghijklmnopqrstuvwxyz") ->
  parseInt (u :: rest) = NaN.
Proof.
  intros Hu. simpl in Hu.
  repeat (destruct Hu as [<-|Hu]; [reflexivity|]). contradiction.
Qed.

(** X14: a [Retry-After] header that begins with a letter, as the HTTP-date
    form does, is not understood: [parseInt] yields NaN, the timer is set
    with NaN and the request is repeated all the same. *)
Theorem retry_after_date_is_not_waited_for op env w r u rest :
  transport env (fetch_count (trace w)) (request_of op) = Ok r ->
  status r = 429 ->
  headers_get r (str "Retry-After") = Some (u :: rest) ->
  In u (str "ABCDEFGHIJKLMNOPQRSTUVWXYZabcdefghijklmnopqrstuvwxyz") ->
  trace (snd (run op env w))
  = trace w ++ [Fetched (request_of op); Slept NaN; Fetched (request_of op)].
Proof.
  intros Ht Hs Hh Hu. rewrite run_world. unfold post_of.
  rewrite (_post_429 env w _ _ _ r Ht Hs). cbv zeta.
  rewrite Hh. unfold waitTime. rewrite (parseInt_letter u rest Hu).
  fold (request_of op).
  destruct (transport env (S _) (request_of op)) as [r2|e2];
    [destruct (ok r2)|]; simpl; rewrite <- !app_assoc; reflexivity.
Qed.

Lemma retry_after_http_date :
  trace (snd (run (Token Scenarios.PM8T)
                (Scenarios.scripted
                   [Ok (Scenarios.with_header "Retry-After"
                          "Wed, 21 Oct 2015 07:28:00 GMT"
                          (Scenarios.response 429 "Too Many Requests" (JObj [])));
                    Ok Scenarios.fresh_token]
                   Scenarios.ticking)
                Scenarios.empty_world))
  = [Fetched (request_of (Token Scenarios.PM8T)); Slept NaN;
     Fetched (request_of (Token Scenarios.PM8T))].
Proof.
  apply (retry_after_date_is_not_waited_for (Token Scenarios.PM8T)
           (Scenarios.scripted
              [Ok (Scenarios.with_header "Retry-After"
                     "Wed, 21 Oct 2015 07:28:00 GMT"
                     (Scenarios.response 429 "Too Many Requests" (JObj [])));
               Ok Scenarios.fresh_token]
              Scenarios.ticking)
           Scenarios.empty_world
           (Scenarios.with_header "Retry-After" "Wed, 21 Oct 2015 07:28:00 GMT"
              (Scenarios.response 429 "Too Many Requests" (JObj [])))
           87%N (str "ed, 21 Oct 2015 07:28:00 GMT")
           eq_refl eq_refl eq_refl).
  simpl. tauto.
Defined.

End DirectoryMore.

(** ** Further properties of the cache *)

Module CacheMore.
Import Js Effects PaynymDirectory Operations Measures DirectoryFacts CacheFacts.
Local Open Scope Z_scope.

Lemma cache_key_inj a b : cache_key a = cache_key b -> a = b.
Proof. unfold cache_key. apply app_inv_head. Qed.

Lemma startsWith_app p s : startsWith (p ++ s) p = true.
Proof.
  induction p as [|c p IH]; [destruct s; reflexivity|]. simpl.
  rewrite N.eqb_refl. exact IH.
Qed.

Lemma cache_key_prefixed paymentCode :
  startsWith (cache_key paymentCode) STORAGE_KEY_PREFIX = true.
Proof. apply startsWith_app. Qed.

(** X5: what [cachePaynymInfo] stores for a payment code is what
    [getCachedPaynymInfo] reads back for it, and the entry of every other
    payment code reads as before. *)
Theorem cached_info_is_read_back paymentCode info env w :
  let w1 := snd (cachePaynymInfo paymentCode info env w) in
  getCachedPaynymInfo paymentCode env w1 = (Ok (Some info), w1)
  /\ (forall other,
        other <> paymentCode ->
        fst (getCachedPaynymInfo other env w1)
        = fst (getCachedPaynymInfo other env w))
  /\ trace w1 = trace w /\ ticks w1 = ticks w.
Proof.
  cbv zeta. rewrite cachePaynymInfo_eq. cbn [snd].
  split; [|split; [|split; reflexivity]].
  - rewrite getCachedPaynymInfo_eq. cbn [storage set_storage].
    rewrite lookup_insert_eq. reflexivity.
  - intros other Hne. rewrite !getCachedPaynymInfo_eq. cbn [fst storage set_storage].
    rewrite lookup_insert_ne; [reflexivity|].
    intros Hk. apply cache_key_inj in Hk. congruence.
Qed.

Lemma clearCache_lookup env w key :
  storage (snd (clearCache env w)) !! key
  = if startsWith key STORAGE_KEY_PREFIX then None else storage w !! key.
Proof.
  unfold clearCache, try_catch. rewrite bind_eq.
  cbn [getAllKeys]. rewrite for_of_removeItem. cbn [fst snd storage set_storage].
  rewrite lookup_foldl_delete.
  destruct (startsWith key STORAGE_KEY_PREFIX) eqn:Ep.
  - destruct (storage w !! key) as [t|] eqn:Ek.
    + rewrite bool_decide_eq_true_2; [reflexivity|].
      apply list_elem_of_In, filter_In. split; [|exact Ep].
      apply list_elem_of_In, stored_key. eauto.
    + destruct (bool_decide _); reflexivity.
  - rewrite bool_decide_eq_false_2; [reflexivity|].
    intros Hin. apply list_elem_of_In, filter_In in Hin as [_ Hp]. congruence.
Qed.

(** X6: after [clearCache] no payment code has an entry any more, and the
    next [getPaynymInfoCached] of any payment code asks the directory. *)
Theorem cleared_cache_has_no_entry paymentCode env w :
  let w1 := snd (clearCache env w) in
  getCachedPaynymInfo paymentCode env w1 = (Ok None, w1)
  /\ fetched_since w1 (snd (getPaynymInfoCached paymentCode false env w1))
       (request_of (Nym paymentCode true)).
Proof.
  cbv zeta.
  assert (Hnone : storage (snd (clearCache env w)) !! cache_key paymentCode = None).
  { rewrite clearCache_lookup, cache_key_prefixed. reflexivity. }
  split.
  - rewrite getCachedPaynymInfo_eq, Hnone. reflexivity.
  - rewrite getPaynymInfoCached_eq. unfold entry. rewrite Hnone.
    destruct (refreshed_cases paymentCode env (snd (clearCache env w)))
      as (Hev & _).
    exact Hev.
Qed.

(** X7: an entry that does not parse, or that carries no [cached_at], is
    never served: [getPaynymInfoCached] asks the directory, keeps the store
    as it is when the fetch yields nothing, and replaces the entry by the
    summary it returns otherwise. *)
Theorem unusable_entry_is_refetched paymentCode env w :
  (exists raw, storage w !! cache_key paymentCode = Some (Unparsable raw))
  \/ (exists c, storage w !! cache_key paymentCode = Some (Stringified c)
                /\ cached_at c = None) ->
  let out := getPaynymInfoCached paymentCode false env w in
  fetched_since w (snd out) (request_of (Nym paymentCode true))
  /\ (fst out = Ok None -> storage (snd out) = storage w)
  /\ (forall info,
        fst out = Ok (Some info) ->
        storage (snd out) !! cache_key paymentCode = Some (Stringified info)).
Proof.
  intros Hbad. cbv zeta.
  assert (Hw0 : exists w0,
            getPaynymInfoCached paymentCode false env w
            = refreshed paymentCode env w0
            /\ trace w0 = trace w /\ storage w0 = storage w).
  { rewrite getPaynymInfoCached_eq. unfold entry.
    destruct Hbad as [(raw & ->)|(c & -> & Hc)]; [exists w; auto|].
    unfold young. rewrite Hc. exists (tick w); auto. }
  destruct Hw0 as (w0 & -> & Htr & Hst).
  destruct (refreshed_cases paymentCode env w0) as (Hev & Hres).
  split; [|split].
  - unfold fetched_since. rewrite <- Htr. exact Hev.
  - intros Hnone. rewrite Hnone in Hres. rewrite <- Hst. exact Hres.
  - intros info Hinfo. rewrite Hinfo in Hres.
    destruct Hres as (_ & _ & -> & _). apply lookup_insert_eq.
Qed.

Lemma entry_without_timestamp_is_refetched :
  let w := {| storage := {[ cache_key Scenarios.PM8T
                            := Stringified
                                 {| code := Scenarios.PM8T; nymID := None;
                                    nymName := None; avatar := None;
                                    followers := None; following := None;
                                    createdAt := None; cached_at := None |} ]};
              trace := []; ticks := 0 |} in
  fetched_since w
    (snd (getPaynymInfoCached Scenarios.PM8T false
            (Scenarios.scripted [] Scenarios.ticking) w))
    (request_of (Nym Scenarios.PM8T true)).
Proof.
  cbv zeta.
  refine (proj1 (unusable_entry_is_refetched Scenarios.PM8T
                   (Scenarios.scripted [] Scenarios.ticking) _ _)).
  right. eexists. split; [apply lookup_singleton_eq|reflexivity].
Defined.

(** X8: a 200 response whose account lacks [followers] or [following]
    gives no summary: reading the length of the missing list throws, the
    error is caught, and [getPaynymInfo] returns [null]; a forced refresh
    then returns [null] and writes nothing. *)
Theorem account_without_lists_gives_no_summary paymentCode env w r fields :
  transport env (fetch_count (trace w)) (request_of (Nym paymentCode true)) = Ok r ->
  status r = 200 -> ok r = true ->
  json_result r = Ok (JObj fields) ->
  assoc (str "followers") fields = None \/ assoc (str "following") fields = None ->
  fst (getPaynymInfo paymentCode env w) = Ok None
  /\ fst (getPaynymInfoCached paymentCode true env w) = Ok None
  /\ storage (snd (getPaynymInfoCached paymentCode true env w)) = storage w.
Proof.
  intros Ht Hs Hok Hj Hmissing.
  assert (Hne : status r <> 429) by lia.
  pose proof (_post_ok env w (endpoint_of (Nym paymentCode true))
                (body_of (Nym paymentCode true)) (extra_of (Nym paymentCode true))
                r Ht Hne Hok) as Hp.
  rewrite Hj, Hs in Hp.
  pose proof (run_200 (Nym paymentCode true) env w _ _ Hp) as Hn.
  change (run (Nym paymentCode true)) with (nym paymentCode true) in Hn.
  assert (Hnone : fst (getPaynymInfo paymentCode env w) = Ok None).
  { unfold getPaynymInfo, try_catch, mbind, M_bind, bind.
    rewrite Hn. cbn [value statusCode truthy andb Z.eqb Pos.eqb prop].
    unfold mret, M_ret, ret.
    destruct Hmissing as [Hf|Hg].
    - rewrite Hf. reflexivity.
    - rewrite Hg.
      destruct (assoc (str "followers") fields) as [[]|]; reflexivity. }
  split; [exact Hnone|].
  rewrite getPaynymInfoCached_eq. unfold refreshed. rewrite Hnone. cbn [fst snd].
  split; [reflexivity|].
  destruct (getPaynymInfo_cases paymentCode env w) as (Hst & _). exact Hst.
Qed.

Lemma compact_account_gives_no_summary :
  fst (getPaynymInfo Scenarios.PM8T
         (Scenarios.scripted
            [Ok (Scenarios.response 200 "OK"
                   (JObj [(str "nymID", JStr (str "nym123"))]))]
            Scenarios.ticking)
         Scenarios.empty_world)
  = Ok None.
Proof.
  refine (proj1 (account_without_lists_gives_no_summary Scenarios.PM8T
                   (Scenarios.scripted
                      [Ok (Scenarios.response 200 "OK"
                             (JObj [(str "nymID", JStr (str "nym123"))]))]
                      Scenarios.ticking)
                   Scenarios.empty_world
                   (Scenarios.response 200 "OK"
                      (JObj [(str "nymID", JStr (str "nym123"))]))
                   [(str "nymID", JStr (str "nym123"))]
                   eq_refl eq_refl eq_refl eq_refl (or_introl eq_refl))).
Defined.

End CacheMore.

(** ** Properties of the backward compatibility methods *)

Module CompatFacts.
Import Js Effects PaynymDirectory Operations Measures DirectoryFacts CacheFacts.
Local Open Scope Z_scope.

(** What [token] returns for a 200 response. *)
Lemma token_200 paymentCode env w r data :
  transport env (fetch_count (trace w)) (request_of (Token paymentCode)) = Ok r ->
  status r = 200 -> ok r = true -> json_result r = Ok data ->
  token paymentCode env w
  = (Ok {| value := data; statusCode := 200;
           message := JStr (str "Token was successfully updated") |},
     record (Fetched (request_of (Token paymentCode))) w).
Proof.
  intros Ht Hs Hok Hj.
  assert (Hne : status r <> 429) by lia.
  pose proof (_post_ok env w (endpoint_of (Token paymentCode))
                (body_of (Token paymentCode)) (extra_of (Token paymentCode))
                r Ht Hne Hok) as Hp.
  rewrite Hj, Hs in Hp.
  exact (run_200 (Token paymentCode) env w _ _ Hp).
Qed.

(** What [token] returns when the call fails. *)
Lemma token_failed paymentCode env w :
  no_response (transport env (fetch_count (trace w))
                 (request_of (Token paymentCode))) ->
  exists e,
    token paymentCode env w
    = (Ok (failed e), record (Fetched (request_of (Token paymentCode))) w)
    /\ thrown_by (transport env (fetch_count (trace w))
                    (request_of (Token paymentCode))) = Some e.
Proof.
  intros Hno.
  destruct (transport env (fetch_count (trace w))
              (request_of (Token paymentCode))) as [r|e] eqn:E.
  - destruct Hno as (Hs & Hok).
    pose proof (_post_not_ok env w (endpoint_of (Token paymentCode))
                  (body_of (Token paymentCode)) (extra_of (Token paymentCode))
                  r E Hs Hok) as Hp.
    exists (http_error r). split; [|reflexivity].
    exact (run_throw (Token paymentCode) env w _ _ Hp).
  - pose proof (_post_rejected env w (endpoint_of (Token paymentCode))
                  (body_of (Token paymentCode)) (extra_of (Token paymentCode))
                  e E) as Hp.
    exists e. split; [|reflexivity].
    exact (run_throw (Token paymentCode) env w _ _ Hp).
Qed.

(** X9: [getToken] never throws.  It returns [null] when the call fails,
    and also when the 200 response holds no token or an empty one; it
    returns the token of a 200 response that holds a non-empty one. *)
Theorem getToken_returns_token_or_null paymentCode env w :
  let first := transport env (fetch_count (trace w))
                 (request_of (Token paymentCode)) in
  (exists t, fst (getToken paymentCode env w) = Ok t)
  /\ (no_response first -> fst (getToken paymentCode env w) = Ok JNull)
  /\ (forall r fields,
        first = Ok r -> status r = 200 -> ok r = true ->
        json_result r = Ok (JObj fields) ->
        fst (getToken paymentCode env w)
        = Ok match assoc (str "token") fields with
             | Some t => if truthy (Some t) then t else JNull
             | None => JNull
             end).
Proof.
  cbv zeta. split; [|split].
  - unfold getToken, try_catch. rewrite bind_eq.
    destruct (token paymentCode env w) as [[response|e] w']; eexists; reflexivity.
  - intros Hno. destruct (token_failed paymentCode env w Hno) as (e & He & _).
    unfold getToken, try_catch. rewrite bind_eq, He. reflexivity.
  - intros r fields Hr Hs Hok Hj.
    unfold getToken, try_catch.
    rewrite bind_eq, (token_200 paymentCode env w r _ Hr Hs Hok Hj).
    unfold mret, M_ret, ret. cbn [fst value token_of]. unfold or_default.
    destruct (assoc (str "token") fields); reflexivity.
Qed.

Lemma getToken_on_sample_responses :
  fst (getToken Scenarios.PM8T
         (Scenarios.scripted [Ok Scenarios.fresh_token] Scenarios.ticking)
         Scenarios.empty_world)
  = Ok (JStr (str "retry_tok"))
  /\ fst (getToken Scenarios.PM8T
            (Scenarios.scripted [Ok Scenarios.not_found] Scenarios.ticking)
            Scenarios.empty_world)
     = Ok JNull.
Proof.
  split.
  - exact (proj2 (proj2 (getToken_returns_token_or_null Scenarios.PM8T
                           (Scenarios.scripted [Ok Scenarios.fresh_token]
                              Scenarios.ticking)
                           Scenarios.empty_world))
             Scenarios.fresh_token _ eq_refl eq_refl eq_refl eq_refl).
  - refine (proj1 (proj2 (getToken_returns_token_or_null Scenarios.PM8T
                            (Scenarios.scripted [Ok Scenarios.not_found]
                               Scenarios.ticking)
                            Scenarios.empty_world)) _).
    split; [discriminate|reflexivity].
Defined.

(** What [claim] returns for a 200 response. *)
Lemma claim_200 t signature env w r data :
  transport env (fetch_count (trace w)) (request_of (Claim t signature)) = Ok r ->
  status r = 200 -> ok r = true -> json_result r = Ok data ->
  claim t signature env w
  = (Ok {| value := data; statusCode := 200;
           message := JStr (str "Payment code successfully claimed") |},
     record (Fetched (request_of (Claim t signature))) w).
Proof.
  intros Ht Hs Hok Hj.
  assert (Hne : status r <> 429) by lia.
  pose proof (_post_ok env w (endpoint_of (Claim t signature))
                (body_of (Claim t signature)) (extra_of (Claim t signature))
                r Ht Hne Hok) as Hp.
  rewrite Hj, Hs in Hp.
  exact (run_200 (Claim t signature) env w _ _ Hp).
Qed.

(** X10: when the token request fails, [claimPaynym] throws "Failed to get
    token: " followed by the text of the failure, and the claim request is
    never sent: the token request is the only transport call. *)
Theorem claimPaynym_stops_when_token_fails paymentCode signature env w :
  no_response (transport env (fetch_count (trace w))
                 (request_of (Token paymentCode))) ->
  exists e,
    thrown_by (transport env (fetch_count (trace w))
                 (request_of (Token paymentCode))) = Some e
    /\ claimPaynym paymentCode signature env w
       = (Throw (ErrorObj (str "Failed to get token: "
                             ++ match e with
                                | ErrorObj msg => msg
                                | Thrown _ => str "Unknown error"
                                end)),
          record (Fetched (request_of (Token paymentCode))) w).
Proof.
  intros Hno. destruct (token_failed paymentCode env w Hno) as (e & He & Hthrown).
  exists e. split; [exact Hthrown|].
  unfold claimPaynym, try_catch. rewrite bind_eq, He.
  destruct e; reflexivity.
Qed.

Lemma claimPaynym_on_unknown_code :
  claimPaynym Scenarios.PM8T (str "sig")
    (Scenarios.scripted [Ok Scenarios.not_found] Scenarios.ticking)
    Scenarios.empty_world
  = (Throw (ErrorObj (str "Failed to get token: HTTP 404: Not Found")),
     record (Fetched (request_of (Token Scenarios.PM8T))) Scenarios.empty_world).
Proof.
  assert (Hno : no_response
                  (transport
                     (Scenarios.scripted [Ok Scenarios.not_found] Scenarios.ticking)
                     (fetch_count (trace Scenarios.empty_world))
                     (request_of (Token Scenarios.PM8T)))).
  { split; [discriminate|reflexivity]. }
  destruct (claimPaynym_stops_when_token_fails Scenarios.PM8T (str "sig")
              (Scenarios.scripted [Ok Scenarios.not_found] Scenarios.ticking)
              Scenarios.empty_world Hno)
    as (e & He & Hc).
  vm_compute in He. injection He as <-. exact Hc.
Defined.

(** X11: when the 200 response to the token request holds no string under
    [token], [claimPaynym] throws the engine's TypeError for
    [token.substring] and no claim request is sent: the token request is
    the only transport call.  The TypeError is the one for reading a
    property of [undefined] when there is no [token], the one for reading a
    property of [null] when the token is [null], and the one for calling
    what is not a function for every other token that is not a string. *)
Theorem claimPaynym_needs_a_string_token paymentCode signature env w r fields :
  transport env (fetch_count (trace w)) (request_of (Token paymentCode)) = Ok r ->
  status r = 200 -> ok r = true -> json_result r = Ok (JObj fields) ->
  (forall t, assoc (str "token") fields <> Some (JStr t)) ->
  let thrown (f : fault) :=
    claimPaynym paymentCode signature env w
    = (Throw (ErrorObj (engine_message env (fault_key f))),
       record (Fetched (request_of (Token paymentCode))) w) in
  (assoc (str "token") fields = None ->
   thrown (ReadOfUndefined (str "substring")))
  /\ (assoc (str "token") fields = Some JNull ->
      thrown (ReadOfNull (str "substring")))
  /\ (forall v, assoc (str "token") fields = Some v -> v <> JNull ->
      thrown (NotAFunction (str "substring"))).
Proof.
  intros Hr Hs Hok Hj Hnot. cbv zeta.
  assert (Hclaim : claimPaynym paymentCode signature env w
                   = (Throw (ErrorObj
                               (engine_message env
                                  (fault_key
                                     (missing_method (assoc (str "token") fields)
                                        (str "substring"))))),
                      record (Fetched (request_of (Token paymentCode))) w)).
  { unfold claimPaynym, try_catch.
    rewrite bind_eq, (token_200 paymentCode env w r _ Hr Hs Hok Hj).
    cbn [value token_of]. change (truthy (Some (JObj fields))) with true.
    cbn [negb]. rewrite bind_eq.
    destruct (assoc (str "token") fields) as [[| | |t| |]|] eqn:E;
      try reflexivity.
    exfalso. exact (Hnot t eq_refl). }
  split; [|split].
  - intros Hnone. rewrite Hclaim, Hnone. reflexivity.
  - intros Hnull. rewrite Hclaim, Hnull. reflexivity.
  - intros v Hv Hne. rewrite Hclaim, Hv.
    destruct v; try reflexivity. contradiction.
Qed.

Lemma claimPaynym_without_token_field :
  fst (claimPaynym Scenarios.PM8T (str "sig")
         (Scenarios.scripted
            [Ok (Scenarios.response 200 "OK" (JObj Scenarios.account_fields))]
            Scenarios.ticking)
         Scenarios.empty_world)
  = Throw (ErrorObj (str "undefined.substring")).
Proof.
  destruct (claimPaynym_needs_a_string_token Scenarios.PM8T (str "sig")
              (Scenarios.scripted
                 [Ok (Scenarios.response 200 "OK" (JObj Scenarios.account_fields))]
                 Scenarios.ticking)
              Scenarios.empty_world
              (Scenarios.response 200 "OK" (JObj Scenarios.account_fields))
              Scenarios.account_fields eq_refl eq_refl eq_refl eq_refl
              ltac:(discriminate)) as (Hmissing & _ & _).
  rewrite (Hmissing eq_refl). reflexivity.
Defined.

(** X12: when the token request and the claim request are both answered
    with 200, [claimPaynym] returns the body of the claim response.  The
    claim request is the second and last transport call; it carries the
    token just received in its [auth-token] header and the signature in its
    body. *)
Theorem claimPaynym_claims_with_the_fresh_token
    paymentCode signature env w r1 fields t r2 claimed :
  let n := fetch_count (trace w) in
  let tokenRequest := request_of (Token paymentCode) in
  let claimRequest := request_of (Claim t signature) in
  transport env n tokenRequest = Ok r1 ->
  status r1 = 200 -> ok r1 = true -> json_result r1 = Ok (JObj fields) ->
  assoc (str "token") fields = Some (JStr t) ->
  transport env (S n) claimRequest = Ok r2 ->
  status r2 = 200 -> ok r2 = true -> json_result r2 = Ok claimed ->
  truthy (Some claimed) = true ->
  claimPaynym paymentCode signature env w
  = (Ok claimed, record (Fetched claimRequest) (record (Fetched tokenRequest) w))
  /\ headers claimRequest !! str "auth-token" = Some t
  /\ Effects.body claimRequest
     = JSON_stringify (JObj [(str "signature", JStr signature)]).
Proof.
  cbv zeta. intros Hr1 Hs1 Hok1 Hj1 Htok Hr2 Hs2 Hok2 Hj2 Htruthy.
  split; [|split; [|reflexivity]].
  - unfold claimPaynym, try_catch.
    rewrite bind_eq, (token_200 paymentCode env w r1 _ Hr1 Hs1 Hok1 Hj1).
    cbn [value token_of]. change (truthy (Some (JObj fields))) with true.
    cbn [negb]. rewrite Htok. cbn [claim_with].
    rewrite bind_eq.
    assert (Hn : fetch_count (trace (record (Fetched (request_of (Token paymentCode))) w))
                 = S (fetch_count (trace w))).
    { cbn [record trace]. apply fetch_count_fetched. }
    rewrite <- Hn in Hr2.
    rewrite (claim_200 t signature env _ r2 _ Hr2 Hs2 Hok2 Hj2).
    cbn [value]. rewrite Htruthy. reflexivity.
  - unfold request_of, make_request, request_headers. cbn [headers extra_of].
    apply lookup_union_Some_l. unfold auth. apply lookup_singleton_eq.
Qed.

Lemma claimPaynym_on_sample_responses :
  fst (claimPaynym Scenarios.PM8T (str "sig")
         (Scenarios.scripted
            [Ok Scenarios.fresh_token;
             Ok (Scenarios.response 200 "OK"
                   (JObj [(str "claimed", JStr Scenarios.PM8T)]))]
            Scenarios.ticking)
         Scenarios.empty_world)
  = Ok (JObj [(str "claimed", JStr Scenarios.PM8T)]).
Proof.
  rewrite (proj1 (claimPaynym_claims_with_the_fresh_token
                    Scenarios.PM8T (str "sig")
                    (Scenarios.scripted
                       [Ok Scenarios.fresh_token;
                        Ok (Scenarios.response 200 "OK"
                              (JObj [(str "claimed", JStr Scenarios.PM8T)]))]
                       Scenarios.ticking)
                    Scenarios.empty_world
                    Scenarios.fresh_token _ (str "retry_tok")
                    (Scenarios.response 200 "OK"
                       (JObj [(str "claimed", JStr Scenarios.PM8T)]))
                    (JObj [(str "claimed", JStr Scenarios.PM8T)])
                    eq_refl eq_refl eq_refl eq_refl eq_refl
                    eq_refl eq_refl eq_refl eq_refl eq_refl)).
  reflexivity.
Defined.

Lemma nym_200 n compact env w r data :
  transport env (fetch_count (trace w)) (request_of (Nym n compact)) = Ok r ->
  status r = 200 -> ok r = true -> json_result r = Ok data ->
  nym n compact env w
  = (Ok {| value := data; statusCode := 200;
           message := JStr (str "Nym found and returned") |},
     record (Fetched (request_of (Nym n compact))) w).
Proof.
  intros Ht Hs Hok Hj.
  assert (Hne : status r <> 429) by lia.
  pose proof (_post_ok env w (endpoint_of (Nym n compact))
                (body_of (Nym n compact)) (extra_of (Nym n compact))
                r Ht Hne Hok) as Hp.
  rewrite Hj, Hs in Hp.
  exact (run_200 (Nym n compact) env w _ _ Hp).
Qed.

Lemma map_each_nym_reference items env w :
  Forall (fun item => item <> JNull) items ->
  map_each nym_reference items env w = (Ok (List.map reference_of items), w).
Proof.
  induction 1 as [|item items Hitem _ IH]; [reflexivity|].
  cbn [map_each List.map]. rewrite bind_eq.
  assert (Hone : nym_reference item env w = (Ok (reference_of item), w)).
  { unfold nym_reference. rewrite bind_eq.
    destruct item; try reflexivity. congruence. }
  rewrite Hone, bind_eq, IH. reflexivity.
Qed.

(** The relation lists share one shape; [relation] is the name of the
    property read, [get] the method. *)
Lemma relation_list_cases relation (get : jsstring -> M (list PaynymInfo)) :
  (forall paymentCode,
     get paymentCode
     = try_catch
         (response ← nym paymentCode false;
          if truthy (Some (value response)) && (statusCode response =? 200) then
            let account := value response in
            listed ← prop account relation;
            map_of listed nym_reference
          else mret [])
         (fun error => mret [])) ->
  forall paymentCode env w,
    let first := transport env (fetch_count (trace w))
                   (request_of (Nym paymentCode false)) in
    (exists l, fst (get paymentCode env w) = Ok l)
    /\ (forall r fields items,
          first = Ok r -> status r = 200 -> ok r = true ->
          json_result r = Ok (JObj fields) ->
          assoc relation fields = Some (JArr items) ->
          Forall (fun item => item <> JNull) items ->
          fst (get paymentCode env w) = Ok (List.map reference_of items))
    /\ (forall r fields,
          first = Ok r -> status r = 200 -> ok r = true ->
          json_result r = Ok (JObj fields) ->
          (forall items, assoc relation fields <> Some (JArr items)) ->
          fst (get paymentCode env w) = Ok []).
Proof.
  intros Hget paymentCode env w. cbv zeta. rewrite Hget.
  split; [|split].
  - unfold try_catch.
    match goal with |- context [?m env w] =>
      match type of m with M _ => destruct (m env w) as [[a|e] w'] end end;
      eexists; reflexivity.
  - intros r fields items Hr Hs Hok Hj Hrel Hall.
    unfold try_catch.
    rewrite bind_eq, (nym_200 paymentCode false env w r _ Hr Hs Hok Hj).
    cbn [value statusCode truthy andb Z.eqb Pos.eqb prop]. rewrite bind_eq.
    unfold mret, M_ret, ret. rewrite Hrel. cbn [map_of].
    rewrite (map_each_nym_reference items env _ Hall). reflexivity.
  - intros r fields Hr Hs Hok Hj Hrel.
    unfold try_catch.
    rewrite bind_eq, (nym_200 paymentCode false env w r _ Hr Hs Hok Hj).
    cbn [value statusCode truthy andb Z.eqb Pos.eqb prop]. rewrite bind_eq.
    unfold mret, M_ret, ret.
    destruct (assoc relation fields) as [[| | | |items|]|] eqn:E;
      try reflexivity.
    exfalso. exact (Hrel items eq_refl).
Qed.

(** X13: [getFollowing] and [getFollowers] never throw.  For a 200 account
    whose relation is a list they return one entry per element, in order,
    each with an empty payment code and the [nymId] of the element; when
    the relation is missing or not a list they return the empty list. *)
Theorem relation_lists_are_mapped_or_empty paymentCode env w :
  let first := transport env (fetch_count (trace w))
                 (request_of (Nym paymentCode false)) in
  (exists following followers,
     fst (getFollowing paymentCode env w) = Ok following
     /\ fst (getFollowers paymentCode env w) = Ok followers)
  /\ (forall r fields items,
        first = Ok r -> status r = 200 -> ok r = true ->
        json_result r = Ok (JObj fields) ->
        Forall (fun item => item <> JNull) items ->
        (assoc (str "following") fields = Some (JArr items) ->
         fst (getFollowing paymentCode env w) = Ok (List.map reference_of items))
        /\ (assoc (str "followers") fields = Some (JArr items) ->
            fst (getFollowers paymentCode env w)
            = Ok (List.map reference_of items)))
  /\ (forall r fields,
        first = Ok r -> status r = 200 -> ok r = true ->
        json_result r = Ok (JObj fields) ->
        ((forall items, assoc (str "following") fields <> Some (JArr items)) ->
         fst (getFollowing paymentCode env w) = Ok [])
        /\ ((forall items, assoc (str "followers") fields <> Some (JArr items)) ->
            fst (getFollowers paymentCode env w) = Ok [])).
Proof.
  cbv zeta.
  destruct (relation_list_cases (str "following") getFollowing
              ltac:(reflexivity) paymentCode env w) as ((l1 & H1) & G1 & E1).
  destruct (relation_list_cases (str "followers") getFollowers
              ltac:(reflexivity) paymentCode env w) as ((l2 & H2) & G2 & E2).
  split; [exists l1, l2; auto|]. split.
  - intros r fields items Hr Hs Hok Hj Hall. split; intros Hrel; eauto.
  - intros r fields Hr Hs Hok Hj. split; intros Hrel; eauto.
Qed.

Lemma getFollowing_on_sample_account :
  fst (getFollowing Scenarios.PM8T
         (Scenarios.scripted
            [Ok (Scenarios.response 200 "OK"
                   (JObj [(str "following",
                           JArr [JObj [(str "nymId", JStr (str "nym3"))]])]))]
            Scenarios.ticking)
         Scenarios.empty_world)
  = Ok [reference_of (JObj [(str "nymId", JStr (str "nym3"))])].
Proof.
  refine (proj1 (proj1 (proj2 (relation_lists_are_mapped_or_empty Scenarios.PM8T
                                 (Scenarios.scripted
                                    [Ok (Scenarios.response 200 "OK"
                                           (JObj [(str "following",
                                                   JArr [JObj [(str "nymId",
                                                                JStr (str "nym3"))]])]))]
                                    Scenarios.ticking)
                                 Scenarios.empty_world))
                   _ _ [JObj [(str "nymId", JStr (str "nym3"))]]
                   eq_refl eq_refl eq_refl eq_refl _) eq_refl).
  constructor; [discriminate|constructor].
Defined.

End CompatFacts.

(** ** Further properties of the wallet *)

Module WalletMore.
Import Js Effects PaynymDirectory Operations Measures DirectoryFacts.
Import HDSegwitBech32Wallet.
Local Open Scope N_scope.

(** X15: a signature is only ever produced with the feature on, for a
    wallet that has a payment code, and it is the base64 form of what the
    signing primitive returned for the token itself, with the private key of
    the notification node, which passed the curve check, and with the
    compressed flag set. *)
Theorem signature_comes_from_the_notification_key
    {Wallet : Type} `{Collaborators Wallet} (this : Wallet) (token s : jsstring) :
  generatePaynymClaimSignature this token = Ok s ->
  isBIP47Enabled this = true
  /\ exists paymentCode key raw,
       getBIP47PaymentCode this = Ok paymentCode /\ paymentCode <> []
       /\ getNotificationNode this = Ok (Some {| privateKey := Some key |})
       /\ ECPair_fromPrivateKey key = Ok tt
       /\ bitcoinMessage_sign token key true = Ok raw
       /\ s = base64_encode raw.
Proof.
  unfold generatePaynymClaimSignature, allowBIP47. cbn [negb orb].
  destruct (isBIP47Enabled this); cbn [negb]; [|discriminate].
  destruct (getBIP47PaymentCode this) as [[|c paymentCode]|e];
    cbn [and_then]; try discriminate.
  destruct (getNotificationNode this) as [[[[key|]]|]|e];
    cbn [and_then]; try discriminate.
  destruct (ECPair_fromPrivateKey key) as [[]|e] eqn:Ecurve;
    cbn [and_then]; try discriminate.
  destruct (bitcoinMessage_sign token key true) as [raw|e] eqn:Esign;
    cbn [and_then]; try discriminate.
  intros Hs. injection Hs as <-.
  split; [reflexivity|]. exists (c :: paymentCode), key, raw.
  repeat split; try assumption. discriminate.
Qed.

Lemma signature_of_sample_wallet :
  exists key raw,
    HDSegwitBech32Wallet.getNotificationNode Scenarios.enabled_wallet
    = Ok (Some {| privateKey := Some key |})
    /\ HDSegwitBech32Wallet.bitcoinMessage_sign (str "tok") key true = Ok raw
    /\ base64_encode (repeat 7%N 32 ++ str "tok") = base64_encode raw.
Proof.
  assert (Hsigned : generatePaynymClaimSignature Scenarios.enabled_wallet (str "tok")
                    = Ok (base64_encode (repeat 7%N 32 ++ str "tok")))
    by (vm_compute; reflexivity).
  destruct (signature_comes_from_the_notification_key Scenarios.enabled_wallet
              (str "tok") _ Hsigned)
    as (_ & paymentCode & key & raw & _ & _ & Hnode & _ & Hsign & Hs).
  exists key, raw. auto.
Defined.


(** *** The base64 form of a signature *)

Lemma base64_char_alphabet n : (n < 64)%N -> is_base64_char (base64_char n).
Proof.
  unfold is_base64_char, base64_char. intros Hn.
  destruct (N.ltb_spec n 26); [lia|].
  destruct (N.ltb_spec n 52); [lia|].
  destruct (N.ltb_spec n 62); [lia|].
  destruct (N.eqb_spec n 62); lia.
Qed.

Lemma base64_char_inj m n :
  (m < 64)%N -> (n < 64)%N -> base64_char m = base64_char n -> m = n.
Proof.
  unfold base64_char. intros Hm Hn.
  destruct (N.ltb_spec m 26), (N.ltb_spec n 26);
    destruct (N.ltb_spec m 52), (N.ltb_spec n 52);
    destruct (N.ltb_spec m 62), (N.ltb_spec n 62);
    destruct (N.eqb_spec m 62), (N.eqb_spec n 62); lia.
Qed.

Lemma base64_char_not_padding n : (n < 64)%N -> base64_char n <> 61%N.
Proof.
  intros Hn. pose proof (base64_char_alphabet n Hn) as Ha.
  unfold is_base64_char in Ha. lia.
Qed.

(** The four sextets of three bytes. *)
Lemma sextets_lt x y z :
  is_byte x -> is_byte y -> is_byte z ->
  (x / 4 < 64 /\ x mod 4 * 16 + y / 16 < 64
   /\ y mod 16 * 4 + z / 64 < 64 /\ z mod 64 < 64
   /\ x mod 4 * 16 < 64 /\ y mod 16 * 4 < 64)%N.
Proof.
  unfold is_byte. intros Hx Hy Hz.
  pose proof (N.mod_upper_bound x 4). pose proof (N.mod_upper_bound y 16).
  pose proof (N.mod_upper_bound z 64).
  assert (x / 4 < 64)%N by (apply N.Div0.div_lt_upper_bound; lia).
  assert (y / 16 < 16)%N by (apply N.Div0.div_lt_upper_bound; lia).
  assert (z / 64 < 4)%N by (apply N.Div0.div_lt_upper_bound; lia).
  lia.
Qed.

Lemma byte_split x d : (d <> 0)%N -> x = (d * (x / d) + x mod d)%N.
Proof. intros Hd. apply N.div_mod. exact Hd. Qed.

(** Induction three bytes at a time. *)
Lemma bytes_ind3 (P : bytes -> Prop) :
  P [] -> (forall x, P [x]) -> (forall x y, P [x; y]) ->
  (forall x y z rest, P rest -> P (x :: y :: z :: rest)) ->
  forall b, P b.
Proof.
  intros H0 H1 H2 H3 b.
  assert (H : P b /\ (forall x, P (x :: b)) /\ (forall x y, P (x :: y :: b))).
  { induction b as [|z b (IH0 & IH1 & IH2)]; [auto|].
    split; [apply IH1|]. split; [intros x; apply IH2|].
    intros x y. apply H3. exact IH0. }
  apply H.
Qed.

Ltac each_char :=
  cbn [base64_encode];
  repeat match goal with
         | |- Forall _ (_ :: _) => constructor
         | |- Forall _ [] => constructor
         end;
  first [left; apply base64_char_alphabet; assumption | right; reflexivity].

(** X16: the base64 form of [n] bytes has [4 * ceil(n / 3)] characters (88
    for the 65 bytes of a signature), each of them a character of the base64
    alphabet or the padding character [=]. *)
Theorem base64_encode_shape (b : bytes) :
  Forall is_byte b ->
  length (base64_encode b) = (4 * ((length b + 2) / 3))%nat
  /\ Forall (fun u => is_base64_char u \/ u = 61%N) (base64_encode b).
Proof.
  induction b as [|x|x y|x y z rest IH] using bytes_ind3; intros Hb.
  - split; [reflexivity|constructor].
  - apply Forall_cons_1 in Hb as [Hx _].
    destruct (sextets_lt x x x Hx Hx Hx) as (H1 & _ & _ & _ & H5 & _).
    split; [reflexivity|].
    each_char.
  - apply Forall_cons_1 in Hb as [Hx Hb]. apply Forall_cons_1 in Hb as [Hy _].
    destruct (sextets_lt x y y Hx Hy Hy) as (H1 & H2 & _ & _ & _ & H6).
    split; [reflexivity|].
    each_char.
  - apply Forall_cons_1 in Hb as [Hx Hb]. apply Forall_cons_1 in Hb as [Hy Hb].
    apply Forall_cons_1 in Hb as [Hz Hb].
    destruct (sextets_lt x y z Hx Hy Hz) as (H1 & H2 & H3 & H4 & _ & _).
    destruct (IH Hb) as [IHlen IHall].
    split.
    + cbn [base64_encode length]. rewrite IHlen.
      replace (S (S (S (length rest))) + 2)%nat
        with (1 * 3 + (length rest + 2))%nat by lia.
      rewrite Nat.div_add_l by lia. lia.
    + cbn [base64_encode].
      repeat (constructor; [left; apply base64_char_alphabet; assumption|]).
      exact IHall.
Qed.

Lemma base64_of_a_signature :
  length (base64_encode (repeat 200%N 65)) = 88%nat.
Proof.
  refine (eq_trans (proj1 (base64_encode_shape (repeat 200%N 65) _)) eq_refl).
  apply Forall_forall. intros u Hu. apply list_elem_of_In, repeat_spec in Hu.
  subst u. reflexivity.
Defined.

Lemma three_bytes_inj x y z x' y' z' :
  is_byte x -> is_byte y -> is_byte z ->
  is_byte x' -> is_byte y' -> is_byte z' ->
  (x / 4 = x' / 4 -> x mod 4 * 16 + y / 16 = x' mod 4 * 16 + y' / 16 ->
   y mod 16 * 4 + z / 64 = y' mod 16 * 4 + z' / 64 -> z mod 64 = z' mod 64 ->
   x = x' /\ y = y' /\ z = z')%N.
Proof.
  unfold is_byte. intros Hx Hy Hz Hx' Hy' Hz' E1 E2 E3 E4.
  pose proof (byte_split x 4). pose proof (byte_split x' 4).
  pose proof (byte_split y 16). pose proof (byte_split y' 16).
  pose proof (byte_split z 64). pose proof (byte_split z' 64).
  pose proof (N.mod_upper_bound x 4). pose proof (N.mod_upper_bound x' 4).
  pose proof (N.mod_upper_bound y 16). pose proof (N.mod_upper_bound y' 16).
  pose proof (N.mod_upper_bound z 64). pose proof (N.mod_upper_bound z' 64).
  assert (y / 16 < 16)%N by (apply N.Div0.div_lt_upper_bound; lia).
  assert (y' / 16 < 16)%N by (apply N.Div0.div_lt_upper_bound; lia).
  assert (z / 64 < 4)%N by (apply N.Div0.div_lt_upper_bound; lia).
  assert (z' / 64 < 4)%N by (apply N.Div0.div_lt_upper_bound; lia).
  lia.
Qed.

Lemma base64_encode_nil b : base64_encode b = [] -> b = [].
Proof. destruct b as [|x [|y [|z rest]]]; [reflexivity|discriminate..]. Qed.

(** X17: the base64 form loses nothing: two byte sequences with the same
    base64 form are the same sequence. *)
Theorem base64_encode_inj (a b : bytes) :
  Forall is_byte a -> Forall is_byte b ->
  base64_encode a = base64_encode b -> a = b.
Proof.
  revert b.
  induction a as [|x|x y|x y z rest IH] using bytes_ind3; intros b Ha Hb E.
  - symmetry. apply base64_encode_nil. symmetry. exact E.
  - apply Forall_cons_1 in Ha as [Hx _].
    destruct b as [|x' [|y' [|z' rest']]]; try discriminate E.
    + apply Forall_cons_1 in Hb as [Hx' _].
      injection E as E1 E2.
      destruct (sextets_lt x x x Hx Hx Hx) as (H1 & _ & _ & _ & H5 & _).
      destruct (sextets_lt x' x' x' Hx' Hx' Hx') as (H1' & _ & _ & _ & H5' & _).
      apply base64_char_inj in E1, E2; try assumption.
      destruct (three_bytes_inj x 0 0 x' 0 0)%N as (-> & _); unfold is_byte;
        try assumption; try lia; reflexivity.
    + apply Forall_cons_1 in Hb as [Hx' Hb]. apply Forall_cons_1 in Hb as [Hy' _].
      injection E as _ _ E3.
      destruct (sextets_lt x' y' y' Hx' Hy' Hy') as (_ & _ & _ & _ & _ & H6).
      symmetry in E3. apply base64_char_not_padding in E3; [contradiction|assumption].
    + apply Forall_cons_1 in Hb as [Hx' Hb]. apply Forall_cons_1 in Hb as [Hy' Hb].
      apply Forall_cons_1 in Hb as [Hz' _].
      injection E as _ _ E3.
      destruct (sextets_lt x' y' z' Hx' Hy' Hz') as (_ & _ & H3 & _).
      symmetry in E3. apply base64_char_not_padding in E3; [contradiction|assumption].
  - apply Forall_cons_1 in Ha as [Hx Ha]. apply Forall_cons_1 in Ha as [Hy _].
    destruct b as [|x' [|y' [|z' rest']]]; try discriminate E.
    + apply Forall_cons_1 in Hb as [Hx' _].
      injection E as _ _ E3.
      destruct (sextets_lt x y y Hx Hy Hy) as (_ & _ & _ & _ & _ & H6).
      apply base64_char_not_padding in E3; [contradiction|assumption].
    + apply Forall_cons_1 in Hb as [Hx' Hb]. apply Forall_cons_1 in Hb as [Hy' _].
      injection E as E1 E2 E3.
      destruct (sextets_lt x y y Hx Hy Hy) as (H1 & H2 & _ & _ & _ & H6).
      destruct (sextets_lt x' y' y' Hx' Hy' Hy') as (H1' & H2' & _ & _ & _ & H6').
      apply base64_char_inj in E1, E2, E3; try assumption.
      destruct (three_bytes_inj x y 0 x' y' 0)%N as (-> & -> & _);
        unfold is_byte; try assumption; try lia; reflexivity.
    + apply Forall_cons_1 in Hb as [Hx' Hb]. apply Forall_cons_1 in Hb as [Hy' Hb].
      apply Forall_cons_1 in Hb as [Hz' _].
      injection E as _ _ _ E4.
      destruct (sextets_lt x' y' z' Hx' Hy' Hz') as (_ & _ & _ & H4 & _).
      symmetry in E4. apply base64_char_not_padding in E4; [contradiction|assumption].
  - apply Forall_cons_1 in Ha as [Hx Ha]. apply Forall_cons_1 in Ha as [Hy Ha].
    apply Forall_cons_1 in Ha as [Hz Ha].
    destruct (sextets_lt x y z Hx Hy Hz) as (H1 & H2 & H3 & H4 & _ & _).
    destruct b as [|x' [|y' [|z' rest']]]; try discriminate E.
    + apply Forall_cons_1 in Hb as [Hx' _].
      injection E as _ _ E3 _.
      apply base64_char_not_padding in E3; [contradiction|assumption].
    + apply Forall_cons_1 in Hb as [Hx' Hb]. apply Forall_cons_1 in Hb as [Hy' _].
      injection E as _ _ _ E4 _.
      apply base64_char_not_padding in E4; [contradiction|assumption].
    + apply Forall_cons_1 in Hb as [Hx' Hb]. apply Forall_cons_1 in Hb as [Hy' Hb].
      apply Forall_cons_1 in Hb as [Hz' Hb].
      destruct (sextets_lt x' y' z' Hx' Hy' Hz') as (H1' & H2' & H3' & H4' & _ & _).
      cbn [base64_encode] in E. injection E as E1 E2 E3 E4 E.
      apply base64_char_inj in E1, E2, E3, E4; try assumption.
      destruct (three_bytes_inj x y z x' y' z') as (-> & -> & ->); try assumption.
      f_equal. f_equal. f_equal. apply IH; assumption.
Qed.

Lemma base64_of_two_keys :
  [1; 2; 3; 4]%N = [1; 2; 3; 4]%N.
Proof.
  apply (base64_encode_inj [1; 2; 3; 4]%N [1; 2; 3; 4]%N);
    [repeat constructor..|reflexivity].
Defined.


(** *** The methods that consult the directory *)

(** X18: with the feature off the wallet never contacts the directory and
    never touches the cache: every method that consults the directory
    returns its empty answer at once. *)
Theorem disabled_wallet_never_asks_the_directory
    {Wallet : Type} `{Collaborators Wallet} `{ContactLists Wallet}
    (this : Wallet) (code : jsstring) (force : bool) env w :
  isBIP47Enabled this = false ->
  getMyPaynymInfo this force env w = (Ok None, w)
  /\ isMyPaynymClaimed this env w = (Ok false, w)
  /\ HDSegwitBech32Wallet.getPaynymInfo this code force env w = (Ok None, w)
  /\ getPaynymFollowing this code env w = (Ok [], w)
  /\ getPaynymFollowers this code env w = (Ok [], w)
  /\ getConnectedPaynyms this force env w = (Ok [], w).
Proof.
  intros Hoff.
  unfold getMyPaynymInfo, isMyPaynymClaimed, HDSegwitBech32Wallet.getPaynymInfo,
    getPaynymFollowing, getPaynymFollowers, getConnectedPaynyms, disabled.
  rewrite Hoff. cbn [negb orb]. rewrite orb_true_r. auto 7.
Qed.

Lemma disabled_sample_wallet_is_silent :
  getConnectedPaynyms Scenarios.disabled_wallet true
    (Scenarios.scripted [] Scenarios.ticking) Scenarios.empty_world
  = (Ok [], Scenarios.empty_world).
Proof.
  assert (Hoff : isBIP47Enabled Scenarios.disabled_wallet = false) by reflexivity.
  apply (disabled_wallet_never_asks_the_directory Scenarios.disabled_wallet
           Scenarios.PM8T true (Scenarios.scripted [] Scenarios.ticking)
           Scenarios.empty_world Hoff).
Defined.

(** X19: the wallet looks up only well-formed payment codes.  With the
    feature on, a malformed code makes [getPaynymInfo] throw "Invalid
    payment code format" before any request or cache access; so whenever the
    call changes the world (a request, a timer, a cache write) the code
    begins with [PM8T], is at least 50 characters long and holds base58
    characters only. *)
Theorem wallet_lookup_needs_a_valid_code
    {Wallet : Type} `{Collaborators Wallet} `{ContactLists Wallet}
    (this : Wallet) (code : jsstring) (force : bool) env w :
  let out := HDSegwitBech32Wallet.getPaynymInfo this code force env w in
  (isBIP47Enabled this = true ->
   PaynymDisplayUtils.isValidPaymentCode code = false ->
   out = (Throw (ErrorObj (str "Invalid payment code format")), w))
  /\ (snd out <> w ->
      isBIP47Enabled this = true
      /\ exists rest,
           code = str "PM8T" ++ rest
           /\ (50 <= length code)%nat
           /\ Forall (fun u => u ∈ PaynymDisplayUtils.base58) rest).
Proof.
  cbv zeta. unfold HDSegwitBech32Wallet.getPaynymInfo, disabled, allowBIP47.
  cbn [negb orb]. split.
  - intros -> ->. reflexivity.
  - destruct (isBIP47Enabled this); cbn [negb]; [|intros Hw; elim Hw; reflexivity].
    destruct (PaynymDisplayUtils.isValidPaymentCode code) eqn:Hvalid;
      cbn [negb]; [|intros Hw; elim Hw; reflexivity].
    intros _. split; [reflexivity|].
    unfold PaynymDisplayUtils.isValidPaymentCode in Hvalid.
    destruct (PaynymDisplayUtils.pm8tRegex_test code) eqn:Hre;
      cbn [negb] in Hvalid; [|discriminate].
    apply Nat.leb_le in Hvalid.
    unfold PaynymDisplayUtils.pm8tRegex_test in Hre.
    repeat match type of Hre with
           | match ?c with _ => _ end = true => destruct c; try discriminate Hre
           end.
    eexists. split; [reflexivity|]. split; [exact Hvalid|].
    apply Forall_forall. intros u Hu.
    rewrite forallb_forall in Hre. apply list_elem_of_In in Hu.
    specialize (Hre u Hu). unfold PaynymDisplayUtils.is_base58 in Hre.
    apply existsb_exists in Hre as (v & Hv & Huv).
    apply N.eqb_eq in Huv. subst v. apply list_elem_of_In. exact Hv.
Qed.

(** One round of the loop of [getConnectedPaynyms]. *)
Lemma map_each_entries {A B} (f : A -> M B) (key : B -> A) (P : B -> Prop) :
  (forall x env w, exists y, fst (f x env w) = Ok y /\ key y = x /\ P y) ->
  forall xs env w,
    exists ys, fst (map_each f xs env w) = Ok ys
               /\ List.map key ys = xs /\ Forall P ys.
Proof.
  intros Hf xs. induction xs as [|x xs IH]; intros env w.
  - exists []. repeat split. constructor.
  - cbn [map_each]. rewrite CacheFacts.bind_eq.
    destruct (Hf x env w) as (y & Hy & Hkey & HP).
    destruct (f x env w) as [o w1]. cbn [fst] in Hy. subst o.
    rewrite CacheFacts.bind_eq.
    destruct (IH env w1) as (ys & Hys & Hkeys & HPs).
    destruct (map_each f xs env w1) as [o w2]. cbn [fst] in Hys. subst o.
    exists (y :: ys). split; [reflexivity|]. split.
    + cbn [List.map]. rewrite Hkey, Hkeys. reflexivity.
    + constructor; assumption.
Qed.

(** X20: with the feature on, [getConnectedPaynyms] never throws, whatever
    the directory does: it returns one entry per contact, the senders first
    and the receivers after them, in the order of the two lists, without
    removing a contact that is in both.  An entry without directory
    information displays the formatted payment code. *)
Theorem connected_paynyms_follow_the_contact_lists
    {Wallet : Type} `{Collaborators Wallet} `{ContactLists Wallet}
    (this : Wallet) (force : bool) env w :
  isBIP47Enabled this = true ->
  exists results,
    fst (getConnectedPaynyms this force env w) = Ok results
    /\ List.map paymentCode results
       = getBIP47SenderPaymentCodes this ++ getBIP47ReceiverPaymentCodes this
    /\ Forall (fun r => paynymInfo r = None ->
                        display r
                        = PaynymDisplayUtils.formatPaymentCode (paymentCode r) None)
              results.
Proof.
  intros Hon. unfold getConnectedPaynyms, disabled, allowBIP47.
  rewrite Hon. cbn [negb orb]. cbv zeta.
  apply map_each_entries. clear. intros code env w.
  unfold try_catch. rewrite CacheFacts.bind_eq.
  match goal with
  | |- context [match ?m env w with _ => _ end] =>
    destruct (m env w) as [[[info|]|e] w1]
  end; eexists; (split; [reflexivity|]); split; try reflexivity;
    cbn [paynymInfo]; try discriminate; reflexivity.
Qed.

Lemma connected_paynyms_of_sample_wallet :
  exists results,
    fst (getConnectedPaynyms Scenarios.enabled_wallet false
           (Scenarios.scripted [] Scenarios.ticking) Scenarios.empty_world)
    = Ok results
    /\ List.map paymentCode results
       = [Scenarios.ALICE_PC; Scenarios.ALICE_PC; Scenarios.CHARLIE_PC].
Proof.
  assert (Hon : isBIP47Enabled Scenarios.enabled_wallet = true) by reflexivity.
  destruct (connected_paynyms_follow_the_contact_lists Scenarios.enabled_wallet
              false (Scenarios.scripted [] Scenarios.ticking)
              Scenarios.empty_world Hon) as (results & Hr & Hcodes & _).
  exists results. split; [exact Hr|exact Hcodes].
Defined.


(** [nym] when the directory yields no account. *)
Lemma nym_no_account n compact env w :
  no_account (transport env (fetch_count (trace w)) (request_of (Nym n compact))) ->
  exists response w1,
    nym n compact env w = (Ok response, w1) /\ value response = JNull.
Proof.
  intros Hno.
  destruct (transport env (fetch_count (trace w)) (request_of (Nym n compact)))
    as [r|e] eqn:E.
  - destruct Hno as (Hs & Hcase). destruct (ok r) eqn:Hok.
    + pose proof (_post_ok env w (endpoint_of (Nym n compact))
                    (body_of (Nym n compact)) (extra_of (Nym n compact))
                    r E Hs Hok) as Hp.
      destruct Hcase as [Hf|[Hj|(e & Hj)]]; [discriminate| |]; rewrite Hj in Hp.
      * destruct (CacheFacts.nym_null_body _ _ _ _ _ _ Hp) as (response & Hr & Hv).
        eauto.
      * pose proof (run_throw (Nym n compact) env w _ _ Hp) as Hr.
        eexists. eexists. split; [exact Hr|reflexivity].
    + pose proof (_post_not_ok env w (endpoint_of (Nym n compact))
                    (body_of (Nym n compact)) (extra_of (Nym n compact))
                    r E Hs Hok) as Hp.
      pose proof (run_throw (Nym n compact) env w _ _ Hp) as Hr.
      eexists. eexists. split; [exact Hr|reflexivity].
  - pose proof (_post_rejected env w (endpoint_of (Nym n compact))
                  (body_of (Nym n compact)) (extra_of (Nym n compact)) e E) as Hp.
    pose proof (run_throw (Nym n compact) env w _ _ Hp) as Hr.
    eexists. eexists. split; [exact Hr|reflexivity].
Qed.

Lemma some_claimed_eq items env w :
  Forall (fun item => item <> JNull) items ->
  some_claimed items env w = (Ok (existsb claimed_flag items), w).
Proof.
  induction 1 as [|item items Hitem _ IH]; [reflexivity|].
  cbn [some_claimed existsb]. rewrite CacheFacts.bind_eq.
  unfold claimed_flag at 1.
  destruct item; try (exfalso; apply Hitem; reflexivity);
    cbn [prop ret truthy orb]; try exact IH.
  unfold ret.
  destruct (truthy (assoc (str "claimed") fields)); [reflexivity|exact IH].
Qed.

(** X21: [isMyPaynymClaimed] never throws, and its answer is read off the
    response to a full (not compact) [/nym] request for the wallet's own
    payment code.  It answers [false] when the directory yields no account
    and when the account has no list of codes; for an account with a list
    of codes it answers whether one of them is marked as claimed. *)
Theorem isMyPaynymClaimed_reads_the_claimed_flags
    {Wallet : Type} `{Collaborators Wallet} `{ContactLists Wallet}
    (this : Wallet) (code : jsstring) env w :
  isBIP47Enabled this = true ->
  getBIP47PaymentCode this = Ok code -> code <> [] ->
  let first := transport env (fetch_count (trace w))
                 (request_of (Nym code false)) in
  let answer := fst (isMyPaynymClaimed this env w) in
  (exists b, answer = Ok b)
  /\ (no_account first -> answer = Ok false)
  /\ (forall r fields,
        first = Ok r -> status r = 200%Z -> ok r = true ->
        json_result r = Ok (JObj fields) ->
        (forall items,
           assoc (str "codes") fields = Some (JArr items) ->
           Forall (fun item => item <> JNull) items ->
           answer = Ok (existsb claimed_flag items))
        /\ ((forall items, assoc (str "codes") fields <> Some (JArr items)) ->
            answer = Ok false)).
Proof.
  intros Hon Hcode Hne. cbv zeta.
  unfold isMyPaynymClaimed, disabled, allowBIP47.
  rewrite Hon. cbn [negb orb]. rewrite CacheFacts.bind_eq.
  rewrite Hcode. destruct code as [|c code]; [contradiction|].
  change (lift (Ok (c :: code)) env w) with (@Ok jsstring (c :: code), w).
  cbv beta iota.
  split; [|split].
  - unfold try_catch.
    match goal with
    | |- context [match ?m env w with _ => _ end] =>
      destruct (m env w) as [[b|e] w1]
    end; eexists; reflexivity.
  - intros Hno.
    destruct (nym_no_account (c :: code) false env w Hno)
      as (response & w1 & Hr & Hv).
    unfold try_catch. rewrite CacheFacts.bind_eq, Hr, Hv. reflexivity.
  - intros r fields Hr Hs Hok Hj.
    pose proof (CompatFacts.nym_200 (c :: code) false env w r _ Hr Hs Hok Hj) as Hn.
    split.
    + intros items Hcodes Hall.
      unfold try_catch. rewrite CacheFacts.bind_eq, Hn.
      cbn [value statusCode truthy negb orb Z.eqb Pos.eqb prop].
      rewrite CacheFacts.bind_eq. unfold ret at 1. rewrite Hcodes.
      cbn [some_of]. rewrite (some_claimed_eq items env _ Hall). reflexivity.
    + intros Hnot.
      unfold try_catch. rewrite CacheFacts.bind_eq, Hn.
      cbn [value statusCode truthy negb orb Z.eqb Pos.eqb prop].
      rewrite CacheFacts.bind_eq. unfold ret at 1.
      destruct (assoc (str "codes") fields) as [[| | | |items|]|] eqn:E;
        try reflexivity.
      exfalso. exact (Hnot items eq_refl).
Qed.

Lemma claimed_sample_wallet :
  fst (isMyPaynymClaimed Scenarios.enabled_wallet
         (Scenarios.scripted
            [Ok (Scenarios.response 200 "OK"
                   (JObj [(str "codes",
                           JArr [JObj [(str "claimed", JBool false)];
                                 JObj [(str "claimed", JBool true)]])]))]
            Scenarios.ticking)
         Scenarios.empty_world)
  = Ok true.
Proof.
  assert (Hon : isBIP47Enabled Scenarios.enabled_wallet = true) by reflexivity.
  assert (Hcode : getBIP47PaymentCode Scenarios.enabled_wallet
                  = Ok (str "PM8TJS2JxQ5ztXUpBBRnpTbcUXbUHy2T1")) by reflexivity.
  assert (Hne : str "PM8TJS2JxQ5ztXUpBBRnpTbcUXbUHy2T1" <> []) by discriminate.
  pose proof (isMyPaynymClaimed_reads_the_claimed_flags Scenarios.enabled_wallet
                _ (Scenarios.scripted
                     [Ok (Scenarios.response 200 "OK"
                            (JObj [(str "codes",
                                    JArr [JObj [(str "claimed", JBool false)];
                                          JObj [(str "claimed", JBool true)]])]))]
                     Scenarios.ticking)
                Scenarios.empty_world Hon Hcode Hne) as (_ & _ & Hcases).
  destruct (Hcases _ _ eq_refl eq_refl eq_refl eq_refl) as (Hlist & _).
  refine (Hlist _ eq_refl _).
  repeat constructor; discriminate.
Defined.

End WalletMore.

(** ** Properties of the display helpers *)

Module DisplayFacts.
Import Js Effects PaynymDirectory Operations Measures PaynymDisplayUtils.
Local Open Scope N_scope.

(** Characters that JSON and UTF-8 leave as they are. *)
Lemma quote_units_plain (s : jsstring) :
  Forall (fun u => 32 <= u < 128 /\ u <> 34 /\ u <> 92) s -> quote_units s = s.
Proof.
  induction 1 as [|u s (Hu & Hq & Hb) _ IH]; [reflexivity|].
  cbn [quote_units].
  destruct (N.eqb_spec u 8); [lia|]. destruct (N.eqb_spec u 9); [lia|].
  destruct (N.eqb_spec u 10); [lia|]. destruct (N.eqb_spec u 12); [lia|].
  destruct (N.eqb_spec u 13); [lia|]. destruct (N.eqb_spec u 34); [lia|].
  destruct (N.eqb_spec u 92); [lia|]. destruct (N.ltb_spec u 32); [lia|].
  unfold is_high_surrogate, is_low_surrogate.
  destruct (N.leb_spec 0xD800 u); [lia|]. cbn [andb].
  destruct (N.leb_spec 0xDC00 u); [lia|]. cbn [andb].
  rewrite IH. reflexivity.
Qed.

Lemma utf8_encode_ascii (s : jsstring) :
  Forall (fun u => u < 128) s -> utf8_encode s = s.
Proof.
  induction 1 as [|u s Hu _ IH]; [reflexivity|].
  cbn [utf8_encode]. unfold is_high_surrogate, is_low_surrogate.
  destruct (N.leb_spec 0xD800 u); [lia|]. cbn [andb].
  destruct (N.leb_spec 0xDC00 u); [lia|]. cbn [andb].
  rewrite IH. unfold utf8_scalar.
  destruct (N.ltb_spec u 0x80); [reflexivity|lia].
Qed.

Lemma base58_plain u :
  is_base58 u = true -> 32 <= u < 128 /\ u <> 34 /\ u <> 92.
Proof.
  unfold is_base58. intros Hu. apply existsb_exists in Hu as (v & Hv & Huv).
  apply N.eqb_eq in Huv. subst v.
  revert u Hv.
  apply (proj1 (List.Forall_forall
                  (fun u => 32 <= u < 128 /\ u <> 34 /\ u <> 92) base58)).
  unfold base58, str. cbn [list_ascii_of_string List.map].
  repeat (constructor; [vm_compute; repeat split; discriminate|]). constructor.
Qed.

(** A valid payment code, character by character. *)
Lemma valid_code_plain code :
  isValidPaymentCode code = true ->
  Forall (fun u => 32 <= u < 128 /\ u <> 34 /\ u <> 92) code
  /\ (50 <= length code)%nat /\ startsWith code (str "PM8T") = true.
Proof.
  unfold isValidPaymentCode. intros Hvalid.
  destruct (pm8tRegex_test code) eqn:Hre; cbn [negb] in Hvalid; [|discriminate].
  apply Nat.leb_le in Hvalid. split; [|split; [exact Hvalid|]].
  - unfold pm8tRegex_test in Hre.
    repeat match type of Hre with
           | match ?c with _ => _ end = true => destruct c; try discriminate Hre
           end.
    rewrite forallb_forall in Hre.
    repeat (constructor; [lia|]).
    apply Forall_forall. intros u Hu. apply base58_plain, Hre.
    apply list_elem_of_In. exact Hu.
  - unfold pm8tRegex_test in Hre.
    repeat match type of Hre with
           | match ?c with _ => _ end = true => destruct c; try discriminate Hre
           end.
    reflexivity.
Qed.


(** X22: a payment code that [isValidPaymentCode] accepts reaches the
    directory exactly as it is: the lookup request holds it between quotes
    with no character escaped, and the [Content-Length] sent with it is the
    number of characters of the code plus the 25 characters around it. *)
Theorem valid_code_is_sent_verbatim (code : jsstring) :
  isValidPaymentCode code = true ->
  let request := request_of (Nym code true) in
  Effects.body request
  = 123 :: quoted (str "nym") ++ 58 :: quoted code
        ++ 44 :: quoted (str "compact") ++ str ":true}"
  /\ headers request !! str "Content-Length"
     = Some (Number_toString (Z.of_nat (length code + 25))).
Proof.
  intros Hvalid. destruct (valid_code_plain code Hvalid) as (Hplain & _ & _).
  cbv zeta.
  assert (Hbody : JSON_stringify (body_of (Nym code true))
                  = 123 :: quoted (str "nym") ++ 58 :: quoted code
                        ++ 44 :: quoted (str "compact") ++ str ":true}").
  { cbn [body_of JSON_stringify List.map join fst snd]. unfold quote, quoted.
    rewrite (quote_units_plain code Hplain).
    change (quote_units (str "nym")) with (str "nym").
    change (quote_units (str "compact")) with (str "compact").
    change (str "true") with [116; 114; 117; 101].
    change (str ":true}") with [58; 116; 114; 117; 101; 125].
    repeat (cbn [app]; rewrite <- List.app_assoc). cbn [app]. reflexivity. }
  split; [exact Hbody|].
  unfold request_of, make_request, request_headers. cbn [headers extra_of].
  rewrite lookup_union_r by apply lookup_empty.
  rewrite lookup_insert_ne by discriminate.
  rewrite lookup_insert_eq. f_equal. f_equal. unfold Blob_size. f_equal.
  rewrite Hbody, utf8_encode_ascii.
  - unfold quoted. cbn [length app].
    repeat (rewrite length_app; cbn [length]).
    change (length (str "nym")) with 3%nat.
    change (length (str "compact")) with 7%nat.
    change (length (str ":true}")) with 6%nat.
    lia.
  - unfold quoted.
    repeat first [ apply Forall_cons_2; [reflexivity|]
                 | apply Forall_app_2 ].
    all: try (eapply Forall_impl; [exact Hplain|cbv beta; intros; lia]).
    all: repeat first [ apply Forall_cons_2; [reflexivity|]
                      | apply Forall_app_2 | apply Forall_nil_2 ].
    all: try (eapply Forall_impl; [exact Hplain|cbv beta; intros; lia]).
    all: unfold str; cbn [list_ascii_of_string List.map];
      repeat (constructor; [reflexivity|]); constructor.
Qed.

Lemma valid_sample_code_is_sent_verbatim :
  headers (request_of (Nym (Scenarios.ALICE_PC ++ str "abcd") true))
    !! str "Content-Length"
  = Some (str "75").
Proof.
  refine (eq_trans
            (proj2 (valid_code_is_sent_verbatim
                      (Scenarios.ALICE_PC ++ str "abcd") _)) _);
    vm_compute; reflexivity.
Defined.


Lemma startsWith_PM8T (s : jsstring) :
  startsWith s (str "PM8T") = true -> exists rest, s = str "PM8T" ++ rest.
Proof.
  change (str "PM8T") with [80; 77; 56; 84]. intros Hs.
  destruct s as [|a [|b [|c [|d rest]]]]; cbn [startsWith] in Hs;
    rewrite ?andb_false_r in Hs; try discriminate.
  repeat (apply andb_prop in Hs as [?%N.eqb_eq Hs]). subst.
  exists rest. reflexivity.
Qed.

Lemma length_firstn_le {A} (n : nat) (l : list A) :
  (n <= length l)%nat -> length (firstn n l) = n.
Proof. intros Hn. rewrite length_firstn. lia. Qed.

(** X23: the short forms of a payment code.  Formatting a code without
    directory information, and shortening it, are idempotent.  A code that
    begins with [PM8T] is shown in at most 24 characters and shortened to at
    most 18, and a code longer than that keeps its first 20 (or 15)
    characters.  Neither form of a valid payment code is itself a valid
    payment code. *)
Theorem short_forms_of_a_code (code : jsstring) :
  let shown := formatPaymentCode code None in
  let short := getShortPaymentCode code in
  formatPaymentCode shown None = shown
  /\ getShortPaymentCode short = short
  /\ (startsWith code (str "PM8T") = true ->
      (length shown <= 24)%nat /\ (length short <= 18)%nat
      /\ ((20 < length code)%nat -> shown = 43 :: firstn 20 code ++ str "...")
      /\ ((15 < length code)%nat -> short = firstn 15 code ++ str "..."))
  /\ (isValidPaymentCode code = true ->
      isValidPaymentCode shown = false /\ isValidPaymentCode short = false).
Proof.
  cbv zeta.
  assert (Hshown : startsWith code (str "PM8T") = true -> (20 < length code)%nat ->
                   formatPaymentCode code None = 43 :: firstn 20 code ++ str "...").
  { intros Hp Hl. unfold formatPaymentCode, substring0. cbn [mbind option_bind truthy].
    rewrite Hp. apply Nat.ltb_lt in Hl. rewrite Hl. reflexivity. }
  assert (Hshort : startsWith code (str "PM8T") = true -> (15 < length code)%nat ->
                   getShortPaymentCode code = firstn 15 code ++ str "...").
  { intros Hp Hl. unfold getShortPaymentCode, substring0.
    rewrite Hp. apply Nat.ltb_lt in Hl. rewrite Hl. reflexivity. }
  assert (Hkeep : startsWith code (str "PM8T") && (20 <? length code)%nat = false ->
                  formatPaymentCode code None = code).
  { intros Hc. unfold formatPaymentCode. cbn [mbind option_bind truthy].
    rewrite Hc. reflexivity. }
  assert (Hkeep' : startsWith code (str "PM8T") && (15 <? length code)%nat = false ->
                   getShortPaymentCode code = code).
  { intros Hc. unfold getShortPaymentCode. rewrite Hc. reflexivity. }
  split; [|split; [|split]].
  - destruct (Bool.bool_dec (startsWith code (str "PM8T") && (20 <? length code)%nat)
                true) as [Hc|Hc]; [|apply not_true_is_false in Hc].
    + apply andb_prop in Hc as [Hp Hl]. apply Nat.ltb_lt in Hl.
      rewrite (Hshown Hp Hl). reflexivity.
    + rewrite (Hkeep Hc). exact (Hkeep Hc).
  - destruct (Bool.bool_dec (startsWith code (str "PM8T") && (15 <? length code)%nat)
                true) as [Hc|Hc]; [|apply not_true_is_false in Hc].
    + apply andb_prop in Hc as [Hp Hl]. apply Nat.ltb_lt in Hl.
      rewrite (Hshort Hp Hl).
      destruct (startsWith_PM8T code Hp) as (rest & ->).
      unfold getShortPaymentCode, substring0.
      assert (Hlen : length (firstn 15 (str "PM8T" ++ rest)) = 15%nat)
        by (apply length_firstn_le; lia).
      assert (Hp' : startsWith (firstn 15 (str "PM8T" ++ rest) ++ str "...")
                      (str "PM8T") = true)
        by exact (CacheMore.startsWith_app (str "PM8T") (firstn 11 rest ++ str "...")).
      rewrite Hp'.
      assert (Hl' : (15 <? length (firstn 15 (str "PM8T" ++ rest) ++ str "..."))%nat
                    = true).
      { apply Nat.ltb_lt. rewrite length_app, Hlen.
        change (length (str "...")) with 3%nat. lia. }
      rewrite Hl'. cbn [andb].
      rewrite firstn_app, Hlen, Nat.sub_diag, firstn_firstn. cbn [firstn].
      rewrite app_nil_r. reflexivity.
    + rewrite (Hkeep' Hc). exact (Hkeep' Hc).
  - intros Hp.
    assert (H24 : (length (formatPaymentCode code None) <= 24)%nat).
    { destruct (Nat.lt_ge_cases 20 (length code)) as [Hl|Hl].
      - rewrite (Hshown Hp Hl). cbn [length]. rewrite length_app, length_firstn.
        change (length (str "...")) with 3%nat. lia.
      - rewrite Hkeep; [lia|]. rewrite Hp. cbn [andb]. apply Nat.ltb_ge. exact Hl. }
    assert (H18 : (length (getShortPaymentCode code) <= 18)%nat).
    { destruct (Nat.lt_ge_cases 15 (length code)) as [Hl|Hl].
      - rewrite (Hshort Hp Hl). rewrite length_app, length_firstn.
        change (length (str "...")) with 3%nat. lia.
      - rewrite Hkeep'; [lia|]. rewrite Hp. cbn [andb]. apply Nat.ltb_ge. exact Hl. }
    split; [exact H24|]. split; [exact H18|]. split; [exact (Hshown Hp)|exact (Hshort Hp)].
  - intros Hvalid.
    destruct (valid_code_plain code Hvalid) as (_ & Hlen & Hp).
    split.
    + rewrite Hshown by (assumption || lia). reflexivity.
    + assert (H18 : (length (getShortPaymentCode code) <= 18)%nat).
      { rewrite Hshort by (assumption || lia).
        rewrite length_app, length_firstn.
        change (length (str "...")) with 3%nat. lia. }
      unfold isValidPaymentCode.
      destruct (pm8tRegex_test (getShortPaymentCode code)); [|reflexivity].
      cbn [negb]. apply Nat.leb_gt. lia.
Qed.

(** X24: the name displayed for a contact is never blank: it is the name the
    directory gave when there is one, else the payment code when it is not
    empty, else "Unknown". *)
Theorem display_name_is_never_blank
    (paynymInfo : option PaynymInfo) (paymentCode : option jsstring) :
  let name := getDisplayName paynymInfo paymentCode in
  truthy name = true
  /\ (truthy (paynymInfo ≫= nymName) = true -> name = paynymInfo ≫= nymName)
  /\ (truthy (paynymInfo ≫= nymName) = false ->
      name = match paymentCode with
             | Some (c :: code) => Some (JStr (c :: code))
             | _ => Some (JStr (str "Unknown"))
             end).
Proof.
  cbv zeta. unfold getDisplayName, or_value.
  destruct paynymInfo as [info|]; cbn [mbind option_bind].
  - destruct (truthy (nymName info)) eqn:Hname.
    + rewrite Hname. split; [exact Hname|]. split; [reflexivity|discriminate].
    + destruct paymentCode as [[|c code]|];
        (split; [reflexivity|]; split; [discriminate|reflexivity]).
  - destruct paymentCode as [[|c code]|];
      (split; [reflexivity|]; split; [discriminate|reflexivity]).
Qed.

End DisplayFacts.

(** ** Properties of the contact list screen *)

Module ScreenFacts.
Import Js PaymentCodesList Measures.
Local Open Scope Z_scope.

(** [indexOf] finds a value that occurs among the first elements within
    them. *)
Lemma indexOf_from_found (pre rest : list jsstring) (x : jsstring) (i : Z) :
  x ∈ pre ->
  i <= indexOf_from i (pre ++ rest) x < i + Z.of_nat (length pre).
Proof.
  revert i. induction pre as [|y pre IH]; intros i Hx.
  - apply elem_of_nil in Hx. contradiction.
  - cbn [app indexOf_from length]. destruct (bool_decide_reflect (y = x)) as [->|Hne].
    + lia.
    + apply elem_of_cons in Hx as [Hx|Hx]; [congruence|].
      specialize (IH (i + 1) Hx). lia.
Qed.

(** It finds a value that does not occur among them right after them. *)
Lemma indexOf_from_first (pre rest : list jsstring) (x : jsstring) (i : Z) :
  x ∉ pre ->
  indexOf_from i (pre ++ x :: rest) x = i + Z.of_nat (length pre).
Proof.
  revert i. induction pre as [|y pre IH]; intros i Hx.
  - cbn [app indexOf_from length]. rewrite bool_decide_eq_true_2 by reflexivity. lia.
  - cbn [app indexOf_from length]. apply not_elem_of_cons in Hx as [Hne Hx].
    rewrite bool_decide_eq_false_2 by congruence.
    rewrite (IH (i + 1) Hx). lia.
Qed.

Lemma onlyUnique_first (pre rest : list jsstring) (x : jsstring) :
  onlyUnique x (Z.of_nat (length pre)) (pre ++ x :: rest)
  = negb (bool_decide (x ∈ pre)).
Proof.
  unfold onlyUnique, indexOf.
  destruct (bool_decide_reflect (x ∈ pre)) as [Hin|Hout]; cbn [negb].
  - pose proof (indexOf_from_found pre (x :: rest) x 0 Hin). apply Z.eqb_neq. lia.
  - rewrite (indexOf_from_first pre rest x 0 Hout). apply Z.eqb_eq. lia.
Qed.

Lemma filter_from_onlyUnique (pre xs : list jsstring) :
  filter_from onlyUnique (Z.of_nat (length pre)) xs (pre ++ xs)
  = first_occurrences pre xs.
Proof.
  revert pre. induction xs as [|x xs IH]; intros pre; [reflexivity|].
  cbn [filter_from first_occurrences].
  rewrite onlyUnique_first.
  specialize (IH (pre ++ [x])).
  rewrite length_app, <- app_assoc in IH. cbn [length app] in IH.
  replace (Z.of_nat (length pre + 1)) with (Z.of_nat (length pre) + 1) in IH by lia.
  rewrite IH. destruct (bool_decide (x ∈ pre)); reflexivity.
Qed.

Lemma first_occurrences_elem (seen xs : list jsstring) (c : jsstring) :
  c ∈ first_occurrences seen xs <-> c ∈ xs /\ c ∉ seen.
Proof.
  revert seen. induction xs as [|x xs IH]; intros seen.
  - cbn [first_occurrences]. split.
    + intros H. apply elem_of_nil in H. contradiction.
    + intros [H _]. apply elem_of_nil in H. contradiction.
  - cbn [first_occurrences].
    destruct (bool_decide_reflect (x ∈ seen)) as [Hin|Hout].
    + rewrite IH, elem_of_cons, elem_of_app, list_elem_of_singleton.
      split.
      * intros [Hc Hn]. split; [right; exact Hc|]. intros Hs. apply Hn. left. exact Hs.
      * intros [[->|Hc] Hn]; [contradiction|]. split; [exact Hc|].
        intros [Hs| ->]; contradiction.
    + rewrite !elem_of_cons, IH, elem_of_app, list_elem_of_singleton.
      split.
      * intros [->|[Hc Hn]]; [split; [left; reflexivity|exact Hout]|].
        split; [right; exact Hc|]. intros Hs. apply Hn. left. exact Hs.
      * intros [[->|Hc] Hn]; [left; reflexivity|].
        destruct (decide (c = x)) as [->|Hne]; [left; reflexivity|].
        right. split; [exact Hc|]. intros [Hs|Hs]; contradiction.
Qed.

Lemma first_occurrences_NoDup (seen xs : list jsstring) :
  NoDup (first_occurrences seen xs).
Proof.
  revert seen. induction xs as [|x xs IH]; intros seen; [constructor|].
  cbn [first_occurrences]. destruct (bool_decide (x ∈ seen)); [apply IH|].
  constructor; [|apply IH].
  rewrite first_occurrences_elem, elem_of_app, list_elem_of_singleton.
  intros [_ Hn]. apply Hn. right. reflexivity.
Qed.

Lemma first_occurrences_sublist (seen xs : list jsstring) :
  first_occurrences seen xs `sublist_of` xs.
Proof.
  revert seen. induction xs as [|x xs IH]; intros seen; [constructor|].
  cbn [first_occurrences]. destruct (bool_decide (x ∈ seen)).
  - apply sublist_cons, IH.
  - apply sublist_skip, IH.
Qed.

(** X25: the rows of the contact list are the contacts of the two lists
    without repetition: every sender and every receiver is a row, every row
    is one of them, no payment code is shown twice, and the rows keep the
    order of the senders followed by the receivers. *)
Theorem rows_are_the_distinct_contacts (senders receivers : list jsstring) :
  let rows := data senders receivers in
  NoDup rows
  /\ (forall c, c ∈ rows <-> c ∈ senders \/ c ∈ receivers)
  /\ rows `sublist_of` (senders ++ receivers).
Proof.
  cbv zeta. unfold data, filter.
  pose proof (filter_from_onlyUnique [] (senders ++ receivers)) as Heq.
  cbn [length app] in Heq. change (Z.of_nat 0) with 0 in Heq. rewrite Heq.
  split; [apply first_occurrences_NoDup|].
  split; [|apply first_occurrences_sublist].
  intros c. rewrite first_occurrences_elem, elem_of_app. split.
  - intros [Hc _]. exact Hc.
  - intros Hc. split; [exact Hc|]. apply not_elem_of_nil.
Qed.

(** X26: a contact name shorter than 20 characters is shown as it is.  A
    longer one is shown in exactly 23 characters: its first ten, three
    dots, and its last ten; so a name of 20 to 22 characters is shown
    longer than it is. *)
Theorem shortened_name_has_23_characters (name : jsstring) :
  let shown := shortenContactName name in
  ((length name < 20)%nat -> shown = name)
  /\ ((20 <= length name)%nat ->
      length shown = 23%nat
      /\ shown = firstn 10 name ++ str "..." ++ skipn (length name - 10) name).
Proof.
  cbv zeta. unfold shortenContactName, substr. split.
  - intros Hl. apply Nat.ltb_lt in Hl. rewrite Hl. reflexivity.
  - intros Hl. rewrite (proj2 (Nat.ltb_ge (length name) 20) Hl). cbn [skipn].
    assert (Hlast : firstn 10 (skipn (length name - 10) name)
                    = skipn (length name - 10) name).
    { apply firstn_all2. rewrite length_skipn. lia. }
    rewrite Hlast. split; [|reflexivity].
    rewrite !length_app, length_firstn, !length_skipn.
    change (length (str "...")) with 3%nat. lia.
Qed.

End ScreenFacts.
